(** * vrs: version-state and multi-file synchronisation engine

    A shallow embedding of [vrs/vrs.go] and the properties of its bump
    algorithm.  The Go code is sequential and talks to three outside parties:
    the file system, the [git] binary and a few library packages ([strings],
    [strconv], [fmt], [regexp], [yaml], [path]).  The file system and the
    sequence of external commands are an explicit [World] threaded through a
    state-and-error monad; the library functions the code calls are modelled
    after their Go definitions, the byte-level ones as functions on [string],
    the YAML codec, the regular-expression matcher and the operating system
    as interfaces. *)

From Stdlib Require Import ZArith Ascii String DecimalString DecimalPos Lia.
From stdpp Require Import base option list strings gmap.

Local Open Scope Z_scope.
#[local] Arguments String.append !_ _ / : simpl nomatch.

(** ** Outcomes of Go code: a value, a returned [error], or a run-time panic *)

Inductive panic : Type :=
| IndexOutOfRange (index length : nat)
| NilDereference.

Inductive error : Type :=
| NoVersioonFileFound                      (* the package's sentinel, vrs.go:37 *)
| PathError (op path : string)             (* *fs.PathError of os.ReadFile / os.WriteFile / os.Getwd *)
| YamlError                                (* any error of yaml.Marshal / yaml.Unmarshal *)
| NumError (fn num : string)               (* *strconv.NumError *)
| RegexpError (expr : string)              (* *syntax.Error of regexp.Compile *)
| ExitError (name : string) (args : list string). (* failure of exec.Cmd.Run *)

Inductive Outcome (A : Type) : Type :=
| Ok (a : A)
| Err (e : error)
| Panic (p : panic).
Arguments Ok {A} a.
Arguments Err {A} e.
Arguments Panic {A} p.

#[global] Instance Outcome_ret : MRet Outcome := fun _ a => Ok a.
#[global] Instance Outcome_bind : MBind Outcome := fun _ _ f m =>
  match m with
  | Ok a => f a
  | Err e => Err e
  | Panic p => Panic p
  end.

(** Go's [a[i]] on a slice: a run-time panic when [i] is out of range. *)
Definition at_index {A} (a : list A) (i : nat) : Outcome A :=
  match a !! i with
  | Some x => Ok x
  | None => Panic (IndexOutOfRange i (length a))
  end.

(** ** Package [strings], on byte strings *)

Module strings.

(** [s[n:]] and [s[:n]] *)
Fixpoint drop (n : nat) (s : string) : string :=
  match n, s with
  | O, _ => s
  | S n', String _ s' => drop n' s'
  | S _, EmptyString => EmptyString
  end.

Fixpoint take (n : nat) (s : string) : string :=
  match n, s with
  | S n', String c s' => String c (take n' s')
  | _, _ => EmptyString
  end.

(** [strings.CutPrefix]: the rest of [s] after the leading [prefix], if any *)
Fixpoint CutPrefix (s prefix : string) {struct prefix} : option string :=
  match prefix, s with
  | EmptyString, _ => Some s
  | String p prefix', String c s' =>
      if Ascii.eqb p c then CutPrefix s' prefix' else None
  | String _ _, EmptyString => None
  end.

(** [strings.Cut]: slices [s] around the first instance of [sep] *)
Fixpoint Cut (s sep : string) : option (string * string) :=
  match CutPrefix s sep with
  | Some after => Some (EmptyString, after)
  | None =>
      match s with
      | EmptyString => None
      | String c s' =>
          match Cut s' sep with
          | Some (before, after) => Some (String c before, after)
          | None => None
          end
      end
  end.

(** [strings.Index]: index of the first instance of [substr], -1 if absent *)
Definition Index (s substr : string) : Z :=
  match Cut s substr with
  | Some (before, _) => Z.of_nat (String.length before)
  | None => -1
  end.

Definition Contains (s substr : string) : bool := 0 <=? Index s substr.

(** The loop of [strings.genSplit] for a non-empty separator: at most
    [len(s)] cuts, stopping as soon as [sep] is no longer found. *)
Fixpoint splitLoop (n : nat) (s sep : string) : list string :=
  match n with
  | O => [s]
  | S n' =>
      match Cut s sep with
      | None => [s]
      | Some (before, after) => before :: splitLoop n' after sep
      end
  end.

(** [explode]: one piece per byte (Go splits per UTF-8 sequence; the code
    never calls [Split] with an empty separator). *)
Fixpoint explode (s : string) : list string :=
  match s with
  | EmptyString => []
  | String c s' => String c EmptyString :: explode s'
  end.

Definition Split (s sep : string) : list string :=
  match sep with
  | EmptyString => explode s
  | _ => splitLoop (String.length s) s sep
  end.

Fixpoint Join (elems : list string) (sep : string) : string :=
  match elems with
  | [] => EmptyString
  | [e] => e
  | e :: rest => e +:+ sep +:+ Join rest sep
  end.

(** The loop of [strings.Replace] for a non-empty [old] and no limit. *)
Fixpoint replaceLoop (n : nat) (s old new : string) : string :=
  match n with
  | O => s
  | S n' =>
      match Cut s old with
      | None => s
      | Some (before, after) => before +:+ new +:+ replaceLoop n' after old new
      end
  end.

(** [strings.ReplaceAll].  With an empty [old] Go inserts [new] before every
    UTF-8 sequence and at the end; bytes stand for sequences here. *)
Definition ReplaceAll (s old new : string) : string :=
  if String.eqb old new then s
  else match old with
       | EmptyString => new +:+ Join (explode s) new +:+ (if String.eqb s "" then "" else new)
       | _ => replaceLoop (String.length s) s old new
       end.

(** [sub] occurs in [s] *)
Definition occurs_in (sub s : string) : Prop := exists x y, s = x +:+ sub +:+ y.

End strings.

(** ** Packages [strconv] and [fmt] *)

Module strconv.

(** Go's [int] on the 64-bit platforms *)
Definition intSize : Z := 64.
Definition MaxInt : Z := 2 ^ (intSize - 1) - 1.
Definition MinInt : Z := - 2 ^ (intSize - 1).

(** two's-complement wrap-around of [int] arithmetic *)
Definition wrap (z : Z) : Z := (z + 2 ^ (intSize - 1)) mod 2 ^ intSize - 2 ^ (intSize - 1).

Definition digit (c : ascii) : option Z :=
  let d := Z.of_N (N_of_ascii c) - 48 in
  if (0 <=? d) && (d <=? 9) then Some d else None.

Fixpoint digits (s : string) (n : Z) : option Z :=
  match s with
  | EmptyString => Some n
  | String ch s' =>
      match digit ch with
      | Some d => digits s' (n * 10 + d)
      | None => None
      end
  end.

(** [strconv.Atoi]: an optional sign and one or more decimal digits, whose
    value fits [int]; anything else is a [*NumError]. *)
Definition Atoi (s : string) : Outcome Z :=
  let '(neg, body) :=
    match s with
    | String "-" s' => (true, s')
    | String "+" s' => (false, s')
    | _ => (false, s)
    end in
  match body with
  | EmptyString => Err (NumError "Atoi" s)
  | _ =>
      match digits body 0 with
      | None => Err (NumError "Atoi" s)
      | Some n =>
          let v := if neg : bool then - n else n in
          if (MinInt <=? v) && (v <=? MaxInt) then Ok v else Err (NumError "Atoi" s)
      end
  end.

(** the verb [%d] of [fmt]: decimal, a leading [-] for negative numbers *)
Definition Itoa (z : Z) : string := NilZero.string_of_int (Z.to_int z).

End strconv.

(** [fmt.Sprintf("%s.%d.%s", a, n, b)] *)
Definition Sprintf_s_d_s (a : string) (n : Z) (b : string) : string :=
  a +:+ "." +:+ strconv.Itoa n +:+ "." +:+ b.

(** ** The version computation of [Bump] (vrs.go:188-194) *)

Definition bumpedVersion (oldVersion : string) : Outcome string :=
  let versionParts := strings.Split oldVersion "." in
  part1 ← at_index versionParts 1;
  minorVersion ← strconv.Atoi part1;
  part0 ← at_index versionParts 0;
  part2 ← at_index versionParts 2;
  mret (Sprintf_s_d_s part0 (strconv.wrap (minorVersion + 1)) part2).

(** ** Package [unicode/utf8] *)

Module utf8.

Definition RuneError : Z := 0xFFFD.

Definition byte (c : ascii) : Z := Z.of_N (N_of_ascii c).

(** the table [first] with [acceptRanges]: for the leading byte of a
    multi-byte sequence, the size of the sequence and the range accepted for
    its second byte *)
Definition first (s0 : Z) : option (Z * Z * Z) :=
  if (0xC2 <=? s0) && (s0 <=? 0xDF) then Some (2, 0x80, 0xBF)
  else if s0 =? 0xE0 then Some (3, 0xA0, 0xBF)
  else if (0xE1 <=? s0) && (s0 <=? 0xEC) then Some (3, 0x80, 0xBF)
  else if s0 =? 0xED then Some (3, 0x80, 0x9F)
  else if (0xEE <=? s0) && (s0 <=? 0xEF) then Some (3, 0x80, 0xBF)
  else if s0 =? 0xF0 then Some (4, 0x90, 0xBF)
  else if (0xF1 <=? s0) && (s0 <=? 0xF3) then Some (4, 0x80, 0xBF)
  else if s0 =? 0xF4 then Some (4, 0x80, 0x8F)
  else None.

(** a continuation byte, [locb <= b <= hicb] *)
Definition continuation (b : Z) : bool := (0x80 <=? b) && (b <=? 0xBF).

(** [utf8.DecodeRuneInString]: the first rune of [s] and its width in
    bytes; [(RuneError, 0)] for the empty string and [(RuneError, 1)] for a
    byte that does not start a well-formed sequence *)
Definition DecodeRuneInString (s : string) : Z * Z :=
  match s with
  | EmptyString => (RuneError, 0)
  | String c0 s1 =>
      let b0 := byte c0 in
      if b0 <? 0x80 then (b0, 1)
      else
        match first b0 with
        | None => (RuneError, 1)
        | Some (sz, lo, hi) =>
            if Z.of_nat (String.length s) <? sz then (RuneError, 1)
            else
              match s1 with
              | EmptyString => (RuneError, 1)
              | String c1 s2 =>
                  let b1 := byte c1 in
                  if (b1 <? lo) || (hi <? b1) then (RuneError, 1)
                  else if sz <=? 2
                  then (Z.lor (Z.shiftl (Z.land b0 0x1F) 6) (Z.land b1 0x3F), 2)
                  else
                    match s2 with
                    | EmptyString => (RuneError, 1)
                    | String c2 s3 =>
                        let b2 := byte c2 in
                        if negb (continuation b2) then (RuneError, 1)
                        else if sz <=? 3
                        then (Z.lor (Z.shiftl (Z.land b0 0x0F) 12)
                                (Z.lor (Z.shiftl (Z.land b1 0x3F) 6) (Z.land b2 0x3F)), 3)
                        else
                          match s3 with
                          | EmptyString => (RuneError, 1)
                          | String c3 _ =>
                              let b3 := byte c3 in
                              if negb (continuation b3) then (RuneError, 1)
                              else (Z.lor (Z.shiftl (Z.land b0 0x07) 18)
                                      (Z.lor (Z.shiftl (Z.land b1 0x3F) 12)
                                         (Z.lor (Z.shiftl (Z.land b2 0x3F) 6)
                                            (Z.land b3 0x3F))), 4)
                          end
                    end
              end
        end
  end.

End utf8.

(** ** Package [regexp]: the matcher is an interface, replacement is modelled

    [regexp.Compile], the search for the next match and the Unicode tables
    are left to the matcher.  What [ReplaceAllString] does with the matches
    (the loop of [Regexp.replaceAll] and the template expansion of
    [Regexp.expand]) is modelled after the Go definitions. *)

Class Matcher : Type := {
  Regexp : Type;
  (** [regexp.Compile]; [None] stands for a [*syntax.Error] *)
  regexp_Compile : string -> option Regexp;
  (** the names of the parenthesised subexpressions, [re.subexpNames] *)
  subexpNames : Regexp -> list string;
  (** [re.doExecute]: the leftmost match in [src] starting at or after
      [pos], as index pairs (whole match first, then each subexpression,
      -1 for one that did not take part); [[]] when there is none *)
  doExecute : Regexp -> string -> Z -> list Z;
  (** [unicode.IsLetter] and [unicode.IsDigit], on code points *)
  unicode_IsLetter : Z -> bool;
  unicode_IsDigit : Z -> bool
}.

Module regexp.

Definition slice (s : string) (lo hi : Z) : string :=
  strings.take (Z.to_nat (hi - lo)) (strings.drop (Z.to_nat lo) s).

Section with_matcher.
Context {matching : Matcher}.

(** the runes of a template name: letters, digits and the underscore *)
Definition isNameRune (r : Z) : bool :=
  unicode_IsLetter r || unicode_IsDigit r || (r =? 95).

(** the loop of [extract] over the runes of [str]: the length in bytes of
    its leading name; a round takes the bytes of one rune *)
Fixpoint nameLen (n : nat) (str : string) : nat :=
  match n with
  | O => O
  | S n' =>
      let '(rune, size) := utf8.DecodeRuneInString str in
      if (0 <? size) && isNameRune rune
      then (Z.to_nat size + nameLen n' (strings.drop (Z.to_nat size) str))%nat
      else O
  end.

(** the number a name denotes, -1 when it is not a number *)
Fixpoint parseNum (name : string) (num : Z) : Z :=
  match name with
  | EmptyString => num
  | String c name' =>
      match strconv.digit c with
      | Some d => if 10 ^ 8 <=? num then -1 else parseNum name' (num * 10 + d)
      | None => -1
      end
  end.

(** [extract]: the name from a leading [name] or [{name}] of a template,
    the number it denotes, and the rest of the template. *)
Definition extract (str : string) : option (string * Z * string) :=
  match str with
  | EmptyString => None
  | _ =>
      let '(brace, str) :=
        match str with
        | String "{" str' => (true, str')
        | _ => (false, str)
        end in
      let i := nameLen (String.length str) str in
      match i with
      | O => None
      | _ =>
          let name := strings.take i str in
          let num :=
            match name with
            | String "0" (String _ _) => -1
            | _ => parseNum name 0
            end in
          if brace : bool then
            match strings.drop i str with
            | String "}" rest => Some (name, num, rest)
            | _ => None
            end
          else Some (name, num, strings.drop i str)
      end
  end.

(** the text of subexpression [i] of a match, when it took part in it *)
Definition submatch (src : string) (m : list Z) (i : nat) : option string :=
  match m !! (2 * i)%nat, m !! (2 * i + 1)%nat with
  | Some lo, Some hi => if 0 <=? lo then Some (slice src lo hi) else None
  | _, _ => None
  end.

Fixpoint namedSubmatch (names : list string) (i : nat) (name src : string) (m : list Z) : string :=
  match names with
  | [] => EmptyString
  | namei :: names' =>
      match submatch src m i with
      | Some text => if String.eqb name namei then text else namedSubmatch names' (S i) name src m
      | None => namedSubmatch names' (S i) name src m
      end
  end.

(** [Regexp.expand]: append [template] to [dst], replacing [$name] and
    [${name}] by the corresponding submatch and [$$] by a dollar sign.
    Every round consumes at least the dollar sign it found. *)
Fixpoint expandLoop (n : nat) (names : list string) (dst template src : string) (m : list Z) : string :=
  match n with
  | O => dst +:+ template
  | S n' =>
      match strings.Cut template "$" with
      | None => dst +:+ template
      | Some (before, after) =>
          let dst := dst +:+ before in
          match after with
          | String "$" template' => expandLoop n' names (dst +:+ "$") template' src m
          | _ =>
              match extract after with
              | None => expandLoop n' names (dst +:+ "$") after src m
              | Some (name, num, rest) =>
                  let text :=
                    if 0 <=? num then default EmptyString (submatch src m (Z.to_nat num))
                    else namedSubmatch names O name src m in
                  expandLoop n' names (dst +:+ text) rest src m
              end
          end
      end
  end.

Definition expand (re : Regexp) (dst template src : string) (m : list Z) : string :=
  expandLoop (String.length template) (subexpNames re) dst template src m.

(** [Regexp.replaceAll]: while [searchPos <= len(src)], copy the text up to
    the next match and let [repl] append the replacement of the match (not
    for an empty match right after the previous one); [searchPos] grows in
    every round, so [len(src) + 1] rounds are enough. *)
Fixpoint replaceAllLoop (n : nat) (re : Regexp) (src : string)
    (repl : string -> list Z -> string)
    (buf : string) (lastMatchEnd searchPos : Z) : string :=
  match n with
  | O => buf +:+ slice src lastMatchEnd (Z.of_nat (String.length src))
  | S n' =>
      if Z.of_nat (String.length src) <? searchPos
      then buf +:+ slice src lastMatchEnd (Z.of_nat (String.length src))
      else
      match doExecute re src searchPos with
      | (a0 :: a1 :: _) as a =>
          let buf := buf +:+ slice src lastMatchEnd a0 in
          let buf := if (lastMatchEnd <? a1) || (a0 =? 0) then repl buf a else buf in
          let width :=
            (utf8.DecodeRuneInString (strings.drop (Z.to_nat searchPos) src)).2 in
          let searchPos :=
            if a1 <? searchPos + width then searchPos + width
            else if a1 <? searchPos + 1 then searchPos + 1
            else a1 in
          replaceAllLoop n' re src repl buf a1 searchPos
      | _ => buf +:+ slice src lastMatchEnd (Z.of_nat (String.length src))
      end
  end.

Definition replaceAll (re : Regexp) (src : string) (repl : string -> list Z -> string) : string :=
  replaceAllLoop (S (String.length src)) re src repl EmptyString 0 0.

(** [Regexp.ReplaceAllString]: [repl] is a template *)
Definition ReplaceAllString (re : Regexp) (src repl : string) : string :=
  replaceAll re src (fun dst m => expand re dst repl src m).

(** [Regexp.ReplaceAllLiteralString]: [repl] is substituted as it is *)
Definition ReplaceAllLiteralString (re : Regexp) (src repl : string) : string :=
  replaceAll re src (fun dst _ => dst +:+ repl).

(** *** What "every match is replaced" means

    [out] is the text of [src] from [lastMatchEnd] on in which every match
    that the matcher finds, searching on from [searchPos], is replaced by
    [text] of that match (an empty match right after the previous match is
    passed over).  The search goes on behind each match, at least one rune
    further, and [out] ends with the rest of [src] only where the search
    position is beyond the end or the matcher finds no further match. *)
Inductive replaces_every_match (re : Regexp) (src : string) (text : list Z -> string)
    : Z -> Z -> string -> Prop :=
| no_search_left lastMatchEnd searchPos :
    Z.of_nat (String.length src) < searchPos ->
    replaces_every_match re src text lastMatchEnd searchPos
      (slice src lastMatchEnd (Z.of_nat (String.length src)))
| no_match_left lastMatchEnd searchPos :
    searchPos <= Z.of_nat (String.length src) ->
    (length (doExecute re src searchPos) < 2)%nat ->
    replaces_every_match re src text lastMatchEnd searchPos
      (slice src lastMatchEnd (Z.of_nat (String.length src)))
| next_match lastMatchEnd searchPos a0 a1 groups out :
    searchPos <= Z.of_nat (String.length src) ->
    doExecute re src searchPos = a0 :: a1 :: groups ->
    let width := (utf8.DecodeRuneInString (strings.drop (Z.to_nat searchPos) src)).2 in
    let searchPos' :=
      if a1 <? searchPos + width then searchPos + width
      else if a1 <? searchPos + 1 then searchPos + 1
      else a1 in
    replaces_every_match re src text a1 searchPos' out ->
    replaces_every_match re src text lastMatchEnd searchPos
      (slice src lastMatchEnd a0
       +:+ (if (lastMatchEnd <? a1) || (a0 =? 0) then text (a0 :: a1 :: groups) else "")
       +:+ out).

(** the matcher reports matches that end at or after the position the
    search started from *)
Definition match_ends_after_search (re : Regexp) (src : string) : Prop :=
  forall pos a0 a1 groups, doExecute re src pos = a0 :: a1 :: groups -> pos <= a1.

End with_matcher.
End regexp.

(** ** The data model (vrs.go:15-35) *)

Definition VrsConfigFileName : string := "vrs.yml".

Record SyncFile : Type := {
  Name : string;
  Pattern : string
}.

Record Sync : Type := {
  Files : list SyncFile
}.

Record Profile : Type := {
  Profile_Name : string;
  Profile_Sync : option Sync          (* *Sync *)
}.

Record VrsConfig : Type := {
  Version : string;
  Config_Sync : option Sync;          (* *Sync *)
  Profiles : list (option Profile)    (* []*Profile *)
}.

Definition with_Version (config : VrsConfig) (version : string) : VrsConfig :=
  {| Version := version; Config_Sync := Config_Sync config; Profiles := Profiles config |}.

(** the options of the three entry points (vrs.go:122-126, 155-160, 277-281) *)
Module InitOptions.
Record t : Type := { Basedir : string; GitCommit : bool; GitPush : bool }.
End InitOptions.

Module BumpOptions.
Record t : Type := {
  Basedir : string;
  GitCommit : bool;
  GitPush : bool;
  ActiveProfiles : list string
}.
End BumpOptions.

Module ReadCurrentOptions.
Record t : Type := { Basedir : string; GitCommit : bool; GitPush : bool }.
End ReadCurrentOptions.

(** [yaml.Marshal] and [yaml.Unmarshal] at type [VrsConfig]; [None] stands
    for the error they return. *)
Class Yaml : Type := {
  yaml_Marshal : VrsConfig -> option string;
  yaml_Unmarshal : string -> option VrsConfig
}.

(** ** The world: files, and everything done to the outside *)

(** the file mode [0600] *)
Definition perm_0600 : N := 6 * 64.

Inductive Action : Type :=
| WriteFile (name data : string) (perm : N)
| Run (dir name : string) (args : list string).

(** an action that was attempted, and whether it succeeded *)
Record Event : Type := {
  action : Action;
  succeeded : bool
}.

Record World : Type := {
  fs : gmap string string;
  trace : list Event
}.

Definition record (a : Action) (ok : bool) (w : World) : World :=
  {| fs := fs w; trace := trace w ++ [{| action := a; succeeded := ok |}] |}.

Inductive StatResult : Type := StatOk | StatNotExist | StatFailed.

(** What the operating system decides: the working directory, whether a
    read, a write or an external command succeeds in a given world, and
    [path.Join]. *)
Class OS : Type := {
  os_Getwd : option string;
  (** [os.Stat] fails with an error for which [os.IsNotExist] does not
      hold (a path component that is not a directory, a missing permission) *)
  stat_other_error : World -> string -> bool;
  read_ok : World -> string -> bool;
  write_ok : World -> string -> bool;
  run_ok : World -> string -> string -> list string -> bool;
  path_Join : string -> string -> string
}.

(** ** The monad of the code: state passing with errors and panics *)

Definition M (A : Type) : Type := World -> Outcome A * World.

#[global] Instance M_ret : MRet M := fun _ a w => (Ok a, w).
#[global] Instance M_bind : MBind M := fun _ _ f m w =>
  match m w with
  | (Ok a, w') => f a w'
  | (Err e, w') => (Err e, w')
  | (Panic p, w') => (Panic p, w')
  end.

Definition lift {A} (o : Outcome A) : M A := fun w => (o, w).
Definition throw {A} (e : error) : M A := lift (Err e).

(** reading a field through a pointer that may be [nil] *)
Definition deref {A} (p : option A) : M A :=
  match p with
  | Some a => mret a
  | None => lift (Panic NilDereference)
  end.

(** a [yaml] result as a Go [(value, error)] pair *)
Definition yaml_result {A} (o : option A) : M A :=
  match o with
  | Some a => mret a
  | None => throw YamlError
  end.

(** [for _, x := range xs { body }] where an error or panic of [body] leaves
    the enclosing function *)
Fixpoint for_range {A} (xs : list A) (body : A -> M unit) : M unit :=
  match xs with
  | [] => mret tt
  | x :: xs' => body x ;; for_range xs' body
  end.

Section vrs.
Context {codec : Yaml} {matching : Matcher} {sys : OS}.

(** *** The file system and external commands *)

(** [os.Stat], as far as the code looks at its result: no error, an error
    for which [os.IsNotExist] holds, or another error *)
Definition os_Stat (name : string) : M StatResult := fun w =>
  (Ok (if stat_other_error w name then StatFailed
       else match fs w !! name with
            | Some _ => StatOk
            | None => StatNotExist
            end), w).

Definition os_ReadFile (name : string) : M string := fun w =>
  match fs w !! name with
  | Some data =>
      if read_ok w name then (Ok data, w) else (Err (PathError "read" name), w)
  | None => (Err (PathError "open" name), w)
  end.

(** a failed write leaves the file as it was *)
Definition os_WriteFile (name data : string) (perm : N) : M unit := fun w =>
  if write_ok w name
  then (Ok tt, record (WriteFile name data perm)
                 true {| fs := <[name := data]> (fs w); trace := trace w |})
  else (Err (PathError "open" name), record (WriteFile name data perm) false w).

(** [cmd := exec.Command(name, args...); cmd.Dir = dir; cmd.Run()] *)
Definition exec_Run (dir name : string) (args : list string) : M unit := fun w =>
  if run_ok w dir name args
  then (Ok tt, record (Run dir name args) true w)
  else (Err (ExitError name args), record (Run dir name args) false w).

Definition git (dir : string) (args : list string) : M unit := exec_Run dir "git" args.

(** *** ConfigStore (vrs.go:39-71) *)

Definition ParseVersioonConfig (basePath : string) : M VrsConfig :=
  let versioonConfigPath := path_Join basePath VrsConfigFileName in
  stat ← os_Stat versioonConfigPath;
  match stat with
  | StatNotExist => throw NoVersioonFileFound
  | StatOk | StatFailed =>
      yml ← os_ReadFile versioonConfigPath;
      config ← yaml_result (yaml_Unmarshal yml);
      mret config
  end.

Definition Write (config : VrsConfig) (basePath : string) : M unit :=
  yml ← yaml_result (yaml_Marshal config);
  os_WriteFile (path_Join basePath VrsConfigFileName) yml perm_0600.

(** *** VCSCommitter (vrs.go:73-120) *)

Definition WriteAndCommit (config : VrsConfig) (baseDir : string)
    (commit push : bool) (commitMessage : string) : M unit :=
  Write config baseDir ;;
  if commit then
    git baseDir ["add"; VrsConfigFileName] ;;
    git baseDir ["commit"; "-m"; commitMessage] ;;
    git baseDir ["tag"; "v" +:+ Version config] ;;
    if push then
      git baseDir ["push"%string] ;;
      git baseDir ["push"; "--tags"]%string
    else mret tt
  else mret tt.

(** *** SubstitutionEngine (vrs.go:236-275) *)

(** the new content of a file (vrs.go:242-251) *)
Definition bumpedContent (oldVersion oldExpression newVersion originalBytes : string)
    : Outcome string :=
  if bool_decide (oldVersion ≠ ""%string)
  then Ok (strings.ReplaceAll originalBytes oldVersion newVersion)
  else match regexp_Compile oldExpression with
       | None => Err (RegexpError oldExpression)
       | Some r => Ok (regexp.ReplaceAllString r originalBytes newVersion)
       end.

Definition bumpInFile (baseDir : string) (gitCommit : bool)
    (file oldVersion oldExpression newVersion : string) : M unit :=
  let filePath := path_Join baseDir file in
  originalBytes ← os_ReadFile filePath;
  bumpedFile ← lift (bumpedContent oldVersion oldExpression newVersion originalBytes);
  os_WriteFile filePath bumpedFile perm_0600 ;;
  if gitCommit then
    git baseDir ["add"; file] ;;
    git baseDir ["commit"; "-m"; "Bumped version."]%string
  else mret tt.

(** *** InitOperation (vrs.go:128-153) *)

Definition os_Getwd_result : M string :=
  match os_Getwd with
  | Some wd => mret wd
  | None => throw (PathError "getwd" ".")
  end.

Definition NewDefaultInitOptions : M InitOptions.t :=
  wd ← os_Getwd_result;
  mret {| InitOptions.Basedir := wd; InitOptions.GitCommit := true; InitOptions.GitPush := true |}.

Definition Init (options : option InitOptions.t) : M unit :=
  options ← match options with
            | None => NewDefaultInitOptions
            | Some o => mret o
            end;
  WriteAndCommit {| Version := "0.0.0"; Config_Sync := None; Profiles := [] |}
    (InitOptions.Basedir options) (InitOptions.GitCommit options)
    (InitOptions.GitPush options) "Initialized versioon file.".

(** *** BumpOrchestrator (vrs.go:162-234) *)

Definition NewDefaultBumpOptions : M BumpOptions.t :=
  wd ← os_Getwd_result;
  mret {| BumpOptions.Basedir := wd; BumpOptions.GitCommit := true;
          BumpOptions.GitPush := true; BumpOptions.ActiveProfiles := [] |}.

(** the body of both loops over sync files (vrs.go:202-209 and 218-225) *)
Definition bumpSyncFile (options : BumpOptions.t) (oldVersion newVersion : string)
    (file : SyncFile) : M unit :=
  if bool_decide (Pattern file = ""%string)
  then bumpInFile (BumpOptions.Basedir options) (BumpOptions.GitCommit options)
         (Name file) oldVersion "" newVersion
  else bumpInFile (BumpOptions.Basedir options) (BumpOptions.GitCommit options)
         (Name file) "" (Pattern file) newVersion.

(** [if sync != nil { for _, file := range sync.Files { ... } }] *)
Definition bumpSync (options : BumpOptions.t) (oldVersion newVersion : string)
    (sync : option Sync) : M unit :=
  match sync with
  | Some sync => for_range (Files sync) (bumpSyncFile options oldVersion newVersion)
  | None => mret tt
  end.

(** the loop over the active profiles for one profile (vrs.go:214-230); it
    ends at the first active profile that has the profile's name *)
Fixpoint bumpProfile (options : BumpOptions.t) (oldVersion newVersion : string)
    (activeProfiles : list string) (profile : option Profile) : M unit :=
  match activeProfiles with
  | [] => mret tt
  | activeProfile :: activeProfiles' =>
      p ← deref profile;
      if String.eqb activeProfile (Profile_Name p)
      then bumpSync options oldVersion newVersion (Profile_Sync p)
      else bumpProfile options oldVersion newVersion activeProfiles' profile
  end.

(** the sync phase of [Bump] (vrs.go:200-231) *)
Definition bumpSyncTargets (options : BumpOptions.t) (oldVersion : string)
    (config : VrsConfig) : M unit :=
  bumpSync options oldVersion (Version config) (Config_Sync config) ;;
  for_range (Profiles config)
    (bumpProfile options oldVersion (Version config) (BumpOptions.ActiveProfiles options)).

Definition Bump (options : option BumpOptions.t) : M unit :=
  options ← match options with
            | None => NewDefaultBumpOptions
            | Some o => mret o
            end;
  config ← ParseVersioonConfig (BumpOptions.Basedir options);
  let oldVersion := Version config in
  newVersion ← lift (bumpedVersion oldVersion);
  let config := with_Version config newVersion in
  WriteAndCommit config (BumpOptions.Basedir options) (BumpOptions.GitCommit options)
    (BumpOptions.GitPush options) "Version bump." ;;
  bumpSyncTargets options oldVersion config.

(** *** ReadCurrentOperation (vrs.go:283-309) *)

Definition NewDefaultReadCurrentOptions : M ReadCurrentOptions.t :=
  wd ← os_Getwd_result;
  mret {| ReadCurrentOptions.Basedir := wd; ReadCurrentOptions.GitCommit := true;
          ReadCurrentOptions.GitPush := true |}.

Definition ReadCurrentVersion (options : option ReadCurrentOptions.t) : M string :=
  options ← match options with
            | None => NewDefaultReadCurrentOptions
            | Some o => mret o
            end;
  config ← ParseVersioonConfig (ReadCurrentOptions.Basedir options);
  mret (Version config).

(** *** The protocol, as lists of actions

    What the operations do to the outside when nothing fails, to state the
    order of their effects. *)

Definition perform (a : Action) : M unit :=
  match a with
  | WriteFile name data perm => os_WriteFile name data perm
  | Run dir name args => exec_Run dir name args
  end.

(** the effect of an action that succeeded on the files *)
Definition apply_action (files : gmap string string) (a : Action) : gmap string string :=
  match a with
  | WriteFile name data _ => <[name := data]> files
  | Run _ _ _ => files
  end.

(** persisting the config document [yml] and, in commit mode, staging,
    committing and tagging it, then pushing in push mode *)
Definition config_actions (baseDir yml commitMessage version : string)
    (commit push : bool) : list Action :=
  WriteFile (path_Join baseDir VrsConfigFileName) yml perm_0600 ::
  (if commit then
     [Run baseDir "git" ["add"; VrsConfigFileName];
      Run baseDir "git" ["commit"; "-m"; commitMessage];
      Run baseDir "git" ["tag"; "v" +:+ version]]
     ++ (if push then
           [Run baseDir "git" ["push"%string];
            Run baseDir "git" ["push"; "--tags"]%string]
         else [])
   else []).

(** rewriting one sync target with [data] and, in commit mode, staging and
    committing it on its own *)
Definition file_actions (baseDir : string) (gitCommit : bool) (file data : string)
    : list Action :=
  WriteFile (path_Join baseDir file) data perm_0600 ::
  (if gitCommit then
     [Run baseDir "git" ["add"; file];
      Run baseDir "git" ["commit"; "-m"; "Bumped version."]%string]
   else []).

Definition done (a : Action) : Event := {| action := a; succeeded := true |}.
Definition failed (a : Action) : Event := {| action := a; succeeded := false |}.

(** a run of [plan] that stopped at an action that failed *)
Definition stopped_in (plan : list Action) (t : list Event) : Prop :=
  exists pre a post, plan = pre ++ a :: post /\ t = map done pre ++ [failed a].

(** the traces of a sync phase in commit mode: for each target in turn its
    write, [git add] and [git commit], all of them unless the phase ended
    early, either before the next write or at an action that failed *)
Definition synced_events (baseDir : string) (synced : list (string * string)) : list Event :=
  flat_map (fun fd => map done (file_actions baseDir true fd.1 fd.2)) synced.

Definition ended_early (baseDir : string) (tail : list Event) : Prop :=
  tail = [] \/ exists file data, stopped_in (file_actions baseDir true file data) tail.

Definition sync_trace (baseDir : string) (t : list Event) : Prop :=
  exists synced tail, t = synced_events baseDir synced ++ tail /\ ended_early baseDir tail.

(** [m] extends the trace by such a trace, and by complete groups only
    when it returns without error *)
Definition runs_sync (baseDir : string) (m : M unit) : Prop :=
  forall w, exists synced tail,
    trace (m w).2 = trace w ++ synced_events baseDir synced ++ tail
    /\ ended_early baseDir tail
    /\ ((m w).1 = Ok tt -> tail = []).

(** the codec reads a document it wrote for [config] back with the version
    of [config] *)
Definition reads_back_version (config : VrsConfig) : Prop :=
  forall yml, yaml_Marshal config = Some yml ->
    exists config', yaml_Unmarshal yml = Some config' /\ Version config' = Version config.

(** the sync targets of a bump in the order the specification gives: the
    files of the global sync, then for each profile of the config, in
    config order, whose name is among the active profiles, its files *)
Definition syncTargets (config : VrsConfig) (activeProfiles : list string) : list SyncFile :=
  from_option Files [] (Config_Sync config)
  ++ flat_map (fun profile : option Profile =>
       match profile with
       | Some p =>
           if bool_decide (Profile_Name p ∈ activeProfiles)
           then from_option Files [] (Profile_Sync p)
           else []
       | None => []
       end) (Profiles config).

End vrs.

(** ** Stand-ins for the outside parties, to run the code on examples *)

Module Fixture.

Definition nl : string := String "010"%char EmptyString.

Definition print_files (indent : string) (files : list SyncFile) : string :=
  foldr (fun f rest =>
      indent +:+ "- name: " +:+ Name f +:+ nl +:+
      indent +:+ "  pattern: " +:+ Pattern f +:+ nl +:+ rest) EmptyString files.

Definition print_sync (indent : string) (sync : option Sync) : string :=
  match sync with
  | Some s => indent +:+ "sync:" +:+ nl +:+ indent +:+ "  files:" +:+ nl
              +:+ print_files (indent +:+ "  ") (Files s)
  | None => EmptyString
  end.

Definition print_profile (p : option Profile) : string :=
  match p with
  | Some p => "- name: " +:+ Profile_Name p +:+ nl +:+ print_sync "  " (Profile_Sync p)
  | None => "- null" +:+ nl
  end.

Definition print_config (c : VrsConfig) : string :=
  "version: " +:+ Version c +:+ nl +:+ print_sync "" (Config_Sync c)
  +:+ match Profiles c with
      | [] => EmptyString
      | ps => "profiles:" +:+ nl +:+ foldr (fun p rest => print_profile p +:+ rest) EmptyString ps
      end.

(** a codec that prints a config as a YAML document and reads back the
    documents of the configs it was told about *)
Definition yaml (known : list VrsConfig) : Yaml := {|
  yaml_Marshal c := Some (print_config c);
  yaml_Unmarshal doc := List.find (fun c => String.eqb (print_config c) doc) known
|}.

(** a matcher for patterns that are plain words: letters, digits, spaces,
    [:], [=] and [_], which match themselves; an unbalanced parenthesis does
    not compile; its Unicode tables end with Latin-1 *)
Definition ascii_letter (r : Z) : bool :=
  (65 <=? r) && (r <=? 90) || (97 <=? r) && (r <=? 122).

Definition ascii_digit (r : Z) : bool := (48 <=? r) && (r <=? 57).

(** the letters of Latin-1 ([unicode.IsLetter] up to U+00FF) *)
Definition latin1_letter (r : Z) : bool :=
  ascii_letter r || (r =? 0xAA) || (r =? 0xB5) || (r =? 0xBA)
  || (0xC0 <=? r) && (r <=? 0xD6) || (0xD8 <=? r) && (r <=? 0xF6)
  || (0xF8 <=? r) && (r <=? 0xFF).

Definition plain (c : ascii) : bool :=
  let r := utf8.byte c in
  ascii_letter r || ascii_digit r || (r =? 95)
  || Ascii.eqb c " " || Ascii.eqb c ":" || Ascii.eqb c "=".

Fixpoint all_plain (s : string) : bool :=
  match s with
  | EmptyString => true
  | String c s' => plain c && all_plain s'
  end.

Definition matcher : Matcher := {|
  Regexp := string;
  regexp_Compile expr := if all_plain expr then Some expr else None;
  subexpNames _ := [EmptyString];
  doExecute re src pos :=
    match strings.Cut (strings.drop (Z.to_nat pos) src) re with
    | Some (before, _) =>
        if Z.of_nat (String.length src) <? pos then []
        else let lo := pos + Z.of_nat (String.length before) in
             [lo; lo + Z.of_nat (String.length re)]
    | None => []
    end;
  unicode_IsLetter := latin1_letter;
  unicode_IsDigit := ascii_digit
|}.

(** an operating system where everything succeeds, except [os.Stat] on the
    paths listed in [unreachable] and the commands listed in [failing] *)
Definition os_where (unreachable : list string) (failing : list (list string)) : OS := {|
  os_Getwd := Some "/work"%string;
  stat_other_error _ name := bool_decide (name ∈ unreachable);
  read_ok _ _ := true;
  write_ok _ _ := true;
  run_ok _ _ _ args := negb (bool_decide (args ∈ failing));
  path_Join dir name := dir +:+ "/" +:+ name
|}.

Definition os (failing : list (list string)) : OS := os_where [] failing.

Definition world (files : list (string * string)) : World :=
  {| fs := list_to_map files; trace := [] |}.

(** example configs, options and a project directory *)
Definition config_of (version : string) : VrsConfig :=
  {| Version := version; Config_Sync := None; Profiles := [] |}.

Definition options (activeProfiles : list string) : BumpOptions.t :=
  {| BumpOptions.Basedir := "/p"; BumpOptions.GitCommit := true;
     BumpOptions.GitPush := false; BumpOptions.ActiveProfiles := activeProfiles |}.

Definition quiet (activeProfiles : list string) : BumpOptions.t :=
  {| BumpOptions.Basedir := "/p"; BumpOptions.GitCommit := false;
     BumpOptions.GitPush := false; BumpOptions.ActiveProfiles := activeProfiles |}.

Definition three_profiles : VrsConfig :=
  {| Version := "0.1.0";
     Config_Sync := Some {| Files := [ {| Name := "README.md"; Pattern := "" |} ] |};
     Profiles :=
       [ Some {| Profile_Name := "dev";
                 Profile_Sync := Some {| Files := [ {| Name := "a.txt"; Pattern := "version: V" |} ] |} |};
         Some {| Profile_Name := "prod";
                 Profile_Sync := Some {| Files := [ {| Name := "b.txt"; Pattern := "" |} ] |} |};
         Some {| Profile_Name := "dev";
                 Profile_Sync := Some {| Files := [ {| Name := "c.txt"; Pattern := "" |} ] |} |} ] |}.

(** a config whose list of profiles starts with a null entry *)
Definition null_profile : VrsConfig :=
  {| Version := "0.1.0";
     Config_Sync := None;
     Profiles :=
       [ None;
         Some {| Profile_Name := "dev";
                 Profile_Sync := Some {| Files := [ {| Name := "c.txt"; Pattern := "" |} ] |} |} ] |}.

Definition project : World :=
  world [("/p/vrs.yml"%string, print_config three_profiles);
         ("/p/README.md"%string, "Release v0.1.0"%string);
         ("/p/a.txt"%string, "x version: V y"%string);
         ("/p/b.txt"%string, "prod 0.1.0"%string);
         ("/p/c.txt"%string, "dev 0.1.0"%string)].

End Fixture.


(** ** Further notions, to state what the operations keep and never do *)

Section notions.
Context {codec : Yaml} {sys : OS}.

(** the codec reads a document it wrote for [config] back as [config] *)
Definition reads_back (config : VrsConfig) : Prop :=
  forall yml, yaml_Marshal config = Some yml -> yaml_Unmarshal yml = Some config.

(** [m] takes every world to one that is related to it by [R] *)
Definition keeps {A} (R : World -> World -> Prop) (m : M A) : Prop :=
  forall w, R w (m w).2.

(** the trace grew by writes only: no external command was attempted *)
Definition is_write (e : Event) : bool :=
  match action e with
  | WriteFile _ _ _ => true
  | Run _ _ _ => false
  end.

Definition only_wrote (w w' : World) : Prop :=
  exists t, trace w' = trace w ++ t /\ forallb is_write t = true.

(** the files outside [paths] are as they were *)
Definition same_outside (paths : list string) (w w' : World) : Prop :=
  forall name, name ∉ paths -> fs w' !! name = fs w !! name.

(** the paths a bump may write: the config file and the sync targets *)
Definition bump_paths (baseDir : string) (config : VrsConfig)
    (activeProfiles : list string) : list string :=
  path_Join baseDir VrsConfigFileName
  :: map (fun file => path_Join baseDir (Name file)) (syncTargets config activeProfiles).

(** [m] never panics *)
Definition never_panics {A} (m : M A) : Prop :=
  forall w p, (m w).1 <> Panic p.

(** what the sync of a target does to the outside: a write, [git add] or
    [git commit -m "Bumped version."]; no tag and no push *)
Definition is_sync_event (e : Event) : bool :=
  match action e with
  | WriteFile _ _ _ => true
  | Run _ name args =>
      String.eqb name "git"
      && match args with
         | [verb; _] => String.eqb verb "add"
         | [verb; flag; message] =>
             String.eqb verb "commit" && String.eqb flag "-m"
             && String.eqb message "Bumped version."
         | _ => false
         end
  end.

Definition only_synced (w w' : World) : Prop :=
  exists t, trace w' = trace w ++ t /\ forallb is_sync_event t = true.

End notions.

(** * Properties *)

(** ** Facts about the string functions *)

Section string_facts.
Import strings.

Lemma append_assoc (a b c : string) : (a +:+ b) +:+ c = a +:+ b +:+ c.
Proof. induction a as [|x a IH]; simpl; [reflexivity | by rewrite IH]. Qed.

Lemma append_empty_r (a : string) : a +:+ "" = a.
Proof. induction a as [|x a IH]; simpl; [reflexivity | by rewrite IH]. Qed.

Lemma length_append (a b : string) :
  String.length (a +:+ b) = (String.length a + String.length b)%nat.
Proof. induction a as [|x a IH]; simpl; [reflexivity | by rewrite IH]. Qed.

Lemma CutPrefix_Some s prefix after :
  CutPrefix s prefix = Some after <-> s = prefix +:+ after.
Proof.
  revert s. induction prefix as [|p prefix IH]; intros s; simpl.
  - split; [by intros [= ->] | by intros ->].
  - destruct s as [|c s].
    + split; intros ?; discriminate.
    + destruct (Ascii.eqb_spec p c) as [->|Hne].
      * rewrite IH. split; [by intros -> | by intros [= ->]].
      * split; [discriminate | intros [= ? ?]; congruence].
Qed.

(** [Cut] splits around an instance of the separator ... *)
Lemma Cut_Some s sep before after :
  Cut s sep = Some (before, after) -> s = before +:+ sep +:+ after.
Proof.
  revert before. induction s as [|c s IH]; intros before; simpl.
  - destruct (CutPrefix "" sep) eqn:E; [|discriminate].
    intros [= <- <-]. by apply CutPrefix_Some in E.
  - destruct (CutPrefix (String c s) sep) eqn:E.
    + intros [= <- <-]. by apply CutPrefix_Some in E.
    + destruct (Cut s sep) as [[b a]|]; [|discriminate].
      intros [= <- <-]. simpl. f_equal. by apply IH.
Qed.

(** ... the leftmost one: the separator does not occur before it ... *)
Lemma Cut_Some_leftmost s sep before after :
  Cut s sep = Some (before, after) -> sep <> ""%string ->
  forall x y, before <> x +:+ sep +:+ y.
Proof.
  intros Hcut Hsep. revert before Hcut.
  induction s as [|c s IH]; intros before; simpl.
  - destruct (CutPrefix "" sep) eqn:E; [|discriminate].
    intros [= <- <-] x y Heq. destruct x; [|discriminate].
    destruct sep; [done | discriminate].
  - destruct (CutPrefix (String c s) sep) eqn:E.
    + intros [= <- <-] x y Heq. destruct x; [|discriminate].
      destruct sep; [done | discriminate].
    + destruct (Cut s sep) as [[b a]|] eqn:Hc; [|discriminate].
      intros [= <- <-] x y Heq. destruct x as [|c' x].
      * apply Cut_Some in Hc. simpl in Heq.
        assert (CutPrefix (String c s) sep = Some (y +:+ sep +:+ a)) as E'.
        { apply CutPrefix_Some. rewrite Hc.
          change (String c (b +:+ sep +:+ a)) with (String c b +:+ sep +:+ a).
          rewrite Heq. by rewrite append_assoc. }
        congruence.
      * injection Heq as _ Heq. by apply (IH b eq_refl x y).
Qed.

(** ... and there is none at all when [Cut] finds nothing. *)
Lemma Cut_None s sep :
  Cut s sep = None <-> forall x y, s <> x +:+ sep +:+ y.
Proof.
  induction s as [|c s IH]; simpl.
  - destruct (CutPrefix "" sep) eqn:E.
    + apply CutPrefix_Some in E. split; [discriminate|].
      intros Hn. destruct (Hn ""%string s). exact E.
    + split; [|done]. intros _ x y Heq.
      destruct x; [|discriminate]. simpl in Heq.
      apply CutPrefix_Some in Heq. congruence.
  - destruct (CutPrefix (String c s) sep) eqn:E.
    + apply CutPrefix_Some in E. split; [discriminate|].
      intros Hn. destruct (Hn ""%string s0). exact E.
    + destruct (Cut s sep) as [[b a]|] eqn:Hc.
      * split; [discriminate|]. intros Hn. apply Cut_Some in Hc.
        destruct (Hn (String c b) a). simpl. by rewrite Hc.
      * split; [|done]. intros _ x y Heq. destruct x as [|c' x].
        -- simpl in Heq. apply CutPrefix_Some in Heq. congruence.
        -- injection Heq as _ Heq. destruct IH as [IH _]. by apply (IH eq_refl x y).
Qed.

Lemma Cut_Some_shorter s sep before after :
  Cut s sep = Some (before, after) -> sep <> ""%string ->
  (String.length after < String.length s)%nat.
Proof.
  intros Hc Hsep. apply Cut_Some in Hc. subst s.
  rewrite !length_append. destruct sep; [done | simpl; lia].
Qed.

Lemma Cut_empty sep : sep <> ""%string -> Cut "" sep = None.
Proof. destruct sep; [done | reflexivity]. Qed.

Lemma Cut_byte_miss c a s :
  Ascii.eqb c a = false -> Cut s (String c "") = None ->
  Cut (String a s) (String c "") = None.
Proof. intros Hc Hs. cbn [Cut CutPrefix]. by rewrite Hc, Hs. Qed.

(** a one-byte separator is found right after a stretch that is free of it *)
Lemma Cut_byte c x rest :
  Cut x (String c "") = None ->
  Cut (x +:+ String c rest) (String c "") = Some (x, rest).
Proof.
  induction x as [|a x IH]; simpl.
  - intros _. by rewrite Ascii.eqb_refl.
  - destruct (Ascii.eqb c a); [discriminate|].
    destruct (Cut x (String c "")) as [[b r]|] eqn:E; [discriminate|].
    intros _. by rewrite IH.
Qed.

Lemma Contains_false s sep : Contains s sep = false <-> Cut s sep = None.
Proof.
  unfold Contains, Index. destruct (Cut s sep) as [[b a]|].
  - split; [|discriminate]. intros Hf. apply Z.leb_gt in Hf. lia.
  - split; reflexivity.
Qed.

(** the loops need no more rounds than the string has bytes *)
Lemma splitLoop_rounds sep n m s :
  sep <> ""%string -> (String.length s <= n)%nat -> (String.length s <= m)%nat ->
  splitLoop n s sep = splitLoop m s sep.
Proof.
  intros Hsep. revert m s. induction n as [|n IH]; intros m s Hn Hm.
  - destruct s; [|simpl in Hn; lia].
    destruct m; cbn [splitLoop]; [reflexivity | by rewrite Cut_empty].
  - destruct m as [|m].
    + destruct s; [|simpl in Hm; lia]. cbn [splitLoop]. by rewrite Cut_empty.
    + cbn [splitLoop]. destruct (Cut s sep) as [[b a]|] eqn:E; [|reflexivity].
      apply Cut_Some_shorter in E; [|done]. f_equal. apply IH; lia.
Qed.

Lemma replaceLoop_rounds old new n m s :
  old <> ""%string -> (String.length s <= n)%nat -> (String.length s <= m)%nat ->
  replaceLoop n s old new = replaceLoop m s old new.
Proof.
  intros Hold. revert m s. induction n as [|n IH]; intros m s Hn Hm.
  - destruct s; [|simpl in Hn; lia].
    destruct m; cbn [replaceLoop]; [reflexivity | by rewrite Cut_empty].
  - destruct m as [|m].
    + destruct s; [|simpl in Hm; lia]. cbn [replaceLoop]. by rewrite Cut_empty.
    + cbn [replaceLoop]. destruct (Cut s old) as [[b a]|] eqn:E; [|reflexivity].
      apply Cut_Some_shorter in E; [|done]. do 2 f_equal. apply IH; lia.
Qed.

Lemma Split_single s sep : Cut s sep = None -> sep <> ""%string -> Split s sep = [s].
Proof.
  intros Hc Hsep. unfold Split. destruct sep; [done|].
  destruct (String.length s); cbn [splitLoop]; [reflexivity | by rewrite Hc].
Qed.

Lemma Split_byte c x rest :
  Cut x (String c "") = None ->
  Split (x +:+ String c rest) (String c "") = x :: Split rest (String c "").
Proof.
  intros Hx. unfold Split.
  rewrite length_append. simpl String.length.
  replace (String.length x + S (String.length rest))%nat
    with (S (String.length x + String.length rest)) by lia.
  cbn [splitLoop]. rewrite (Cut_byte _ _ _ Hx). f_equal.
  apply splitLoop_rounds; [done | lia | lia].
Qed.

Lemma Cut_None_occurs s sep : Cut s sep = None <-> ~ occurs_in sep s.
Proof.
  rewrite Cut_None. unfold occurs_in. split.
  - intros Hn (x & y & Heq). by apply (Hn x y).
  - intros Hn x y Heq. apply Hn. eauto.
Qed.

Lemma splitLoop_not_nil n s sep : splitLoop n s sep <> [].
Proof. destruct n; cbn [splitLoop]; [done|]. by destruct (Cut s sep) as [[? ?]|]. Qed.

Lemma Join_cons e rest sep :
  rest <> [] -> Join (e :: rest) sep = e +:+ sep +:+ Join rest sep.
Proof. by destruct rest. Qed.

(** joining the pieces with the separator gives the string back *)
Lemma Join_splitLoop n s sep : Join (splitLoop n s sep) sep = s.
Proof.
  revert s. induction n as [|n IH]; intros s; cbn [splitLoop]; [reflexivity|].
  destruct (Cut s sep) as [[b a]|] eqn:E; [|reflexivity].
  rewrite Join_cons by apply splitLoop_not_nil.
  rewrite IH. symmetry. by apply Cut_Some.
Qed.

(** replacing is splitting at the old string and joining with the new *)
Lemma replaceLoop_Join n s old new :
  replaceLoop n s old new = Join (splitLoop n s old) new.
Proof.
  revert s. induction n as [|n IH]; intros s; cbn [splitLoop replaceLoop]; [reflexivity|].
  destruct (Cut s old) as [[b a]|] eqn:E; [|reflexivity].
  rewrite Join_cons by apply splitLoop_not_nil. by rewrite IH.
Qed.

(** no piece contains the separator *)
Lemma splitLoop_pieces n s sep :
  sep <> ""%string -> (String.length s <= n)%nat ->
  Forall (fun piece => ~ occurs_in sep piece) (splitLoop n s sep).
Proof.
  intros Hsep. revert s. induction n as [|n IH]; intros s Hn; cbn [splitLoop].
  - destruct s; [|simpl in Hn; lia].
    constructor; [|constructor]. apply Cut_None_occurs. by apply Cut_empty.
  - destruct (Cut s sep) as [[b a]|] eqn:E.
    + constructor.
      * intros (x & y & Heq). by apply (Cut_Some_leftmost _ _ _ _ E Hsep x y).
      * apply IH. apply Cut_Some_shorter in E; [lia | done].
    + constructor; [|constructor]. by apply Cut_None_occurs.
Qed.

Lemma ReplaceAll_Join s old new :
  old <> ""%string -> ReplaceAll s old new = Join (Split s old) new.
Proof.
  intros Hold. unfold ReplaceAll, Split.
  destruct (String.eqb_spec old new) as [<-|Hne].
  - destruct old; [done|]. by rewrite Join_splitLoop.
  - destruct old; [done|]. apply replaceLoop_Join.
Qed.

End string_facts.

(** ** Facts about [strconv] *)

Section strconv_facts.
Import strings strconv.

Lemma digit_not_dot ch d : digit ch = Some d -> Ascii.eqb "." ch = false.
Proof.
  destruct (Ascii.eqb_spec "."%char ch) as [<-|]; [|reflexivity].
  vm_compute. discriminate.
Qed.

Lemma digits_no_dot s k n : digits s k = Some n -> Cut s "." = None.
Proof.
  revert k. induction s as [|ch s IH]; intros k; [reflexivity|].
  cbn [digits]. destruct (digit ch) as [d|] eqn:Hd; [|discriminate].
  intros Hs. apply Cut_byte_miss; [by eapply digit_not_dot | by eapply IH].
Qed.

(** [Atoi] either gives a number or the [*NumError] for its argument *)
Lemma Atoi_cases s : (exists n, Atoi s = Ok n) \/ Atoi s = Err (NumError "Atoi" s).
Proof.
  unfold Atoi.
  destruct (match s with
            | String "-" s' => (true, s')
            | String "+" s' => (false, s')
            | _ => (false, s)
            end) as [neg body].
  destruct body; [by right|].
  destruct (digits _ 0) as [n|]; [|by right].
  destruct (_ && _); [left; eauto | by right].
Qed.

Lemma Atoi_Ok_range s n : Atoi s = Ok n -> MinInt <= n <= MaxInt.
Proof.
  unfold Atoi.
  destruct (match s with
            | String "-" s' => (true, s')
            | String "+" s' => (false, s')
            | _ => (false, s)
            end) as [neg body].
  destruct body; [discriminate|].
  destruct (digits _ 0) as [k|]; [|discriminate].
  destruct (_ && _) eqn:Hr; [|discriminate].
  intros [= <-]. apply andb_true_iff in Hr as [?%Z.leb_le ?%Z.leb_le]. lia.
Qed.

(** a string that [Atoi] accepts has no dot in it *)
Lemma Atoi_Ok_no_dot s n : Atoi s = Ok n -> Contains s "." = false.
Proof.
  intros Hs. apply Contains_false. revert Hs. unfold Atoi.
  destruct s as [|c s]; [discriminate|].
  destruct (Ascii.eqb_spec c "-") as [->|Hm]; [|destruct (Ascii.eqb_spec c "+") as [->|Hp]].
  - destruct s; [discriminate|]. destruct (digits _ 0) eqn:E; [|discriminate].
    intros _. apply digits_no_dot in E. by apply Cut_byte_miss.
  - destruct s; [discriminate|]. destruct (digits _ 0) eqn:E; [|discriminate].
    intros _. apply digits_no_dot in E. by apply Cut_byte_miss.
  - assert (match String c s with
            | String "-" s' => (true, s')
            | String "+" s' => (false, s')
            | _ => (false, String c s)
            end = (false, String c s)) as ->.
    { destruct c as [[] [] [] [] [] [] [] []]; try reflexivity; congruence. }
    destruct (digits _ 0) eqn:E; [|discriminate].
    intros _. by apply digits_no_dot in E.
Qed.

Lemma wrap_in_range z : MinInt <= z <= MaxInt -> wrap z = z.
Proof.
  unfold wrap, MinInt, MaxInt, intSize. intros Hz.
  rewrite Z.mod_small; lia.
Qed.

End strconv_facts.

(** ** The version computation *)

Section version.
Import strings strconv.

Lemma Split_three x y z :
  Contains x "." = false -> Contains y "." = false -> Contains z "." = false ->
  Split (x +:+ "." +:+ y +:+ "." +:+ z) "." = [x; y; z].
Proof.
  intros Hx%Contains_false Hy%Contains_false Hz%Contains_false.
  change ("." +:+ y +:+ "." +:+ z) with (String "." (y +:+ String "." z)).
  rewrite (Split_byte _ _ _ Hx), (Split_byte _ _ _ Hy).
  by rewrite (Split_single _ _ Hz).
Qed.

(** C1 (as amended): for a version [x.y.z] of three dot-separated parts
    whose second part [y] parses as an integer below the largest [int], the
    bumped version is [x.(y+1).z]: the middle part is incremented, the first
    and the third are carried through as they are. *)
Theorem bumpedVersion_increments_minor (x y z : string) (n : Z) :
  Contains x "." = false -> Contains z "." = false ->
  Atoi y = Ok n -> n < MaxInt ->
  bumpedVersion (x +:+ "." +:+ y +:+ "." +:+ z)
  = Ok (x +:+ "." +:+ Itoa (n + 1) +:+ "." +:+ z).
Proof.
  intros Hx Hz Hy Hn. unfold bumpedVersion.
  rewrite (Split_three _ _ _ Hx (Atoi_Ok_no_dot _ _ Hy) Hz).
  cbn [at_index lookup list_lookup mbind Outcome_bind]. rewrite Hy.
  cbn [mbind Outcome_bind mret Outcome_ret]. unfold Sprintf_s_d_s.
  apply Atoi_Ok_range in Hy. rewrite wrap_in_range; [reflexivity | lia].
Qed.

Lemma bumpedVersion_increments_minor_witness :
  bumpedVersion "2.9.beta" = Ok "2.10.beta"%string.
Proof.
  exact (bumpedVersion_increments_minor "2" "9" "beta" 9 eq_refl eq_refl eq_refl eq_refl).
Defined.

(** C1 as stated fails at the largest [int]: the second part parses, but
    the increment wraps around to the smallest [int]. *)
Lemma bumpedVersion_wraps_at_MaxInt :
  Contains "1" "." = false /\ Contains "0" "." = false /\
  Atoi "9223372036854775807" = Ok 9223372036854775807 /\
  bumpedVersion "1.9223372036854775807.0" = Ok "1.-9223372036854775808.0"%string /\
  bumpedVersion ("1" +:+ "." +:+ "9223372036854775807" +:+ "." +:+ "0")
  <> Ok ("1" +:+ "." +:+ Itoa (9223372036854775807 + 1) +:+ "." +:+ "0").
Proof. vm_compute. repeat split; discriminate. Qed.

(** a version with a second part that does not parse gives the [*NumError]
    of that part *)
Lemma bumpedVersion_not_a_number oldVersion part1 :
  Split oldVersion "." !! 1%nat = Some part1 ->
  (forall n, Atoi part1 <> Ok n) ->
  bumpedVersion oldVersion = Err (NumError "Atoi" part1).
Proof.
  intros H1 Hn. unfold bumpedVersion, at_index. rewrite H1.
  cbn [mbind Outcome_bind].
  destruct (Atoi_cases part1) as [[n Hok]| ->]; [by destruct (Hn n) | reflexivity].
Qed.

(** a version with less than two parts makes the index expression panic *)
Lemma bumpedVersion_too_short oldVersion :
  (length (Split oldVersion ".") < 2)%nat ->
  bumpedVersion oldVersion = Panic (IndexOutOfRange 1 (length (Split oldVersion "."))).
Proof.
  intros Hl. unfold bumpedVersion, at_index.
  destruct (Split oldVersion "." !! 1%nat) eqn:E; [|reflexivity].
  apply lookup_lt_Some in E. lia.
Qed.

(** a version that can be bumped is not the empty string, so that the
    sync phase runs in literal mode whenever a sync file has no pattern *)
Lemma bumpedVersion_Ok_not_empty oldVersion newVersion :
  bumpedVersion oldVersion = Ok newVersion -> oldVersion <> ""%string.
Proof. intros Hb ->. vm_compute in Hb. discriminate. Qed.

End version.

(** ** Running the code *)

Ltac unfold_M :=
  unfold yaml_result, deref, throw, lift, mbind, M_bind, mret, M_ret in *.

Section properties.
Context {codec : Yaml} {matching : Matcher} {sys : OS}.

(** *** ConfigStore *)

(** loading is a look at [os.Stat] and then, unless the file is reported as
    not existing, reading and parsing it *)
Lemma ParseVersioonConfig_cases basePath w :
  let versioonConfigPath := path_Join basePath VrsConfigFileName in
  ParseVersioonConfig basePath w
  = if negb (stat_other_error w versioonConfigPath)
       && bool_decide (fs w !! versioonConfigPath = None)
    then (Err NoVersioonFileFound, w)
    else match fs w !! versioonConfigPath with
         | None => (Err (PathError "open" versioonConfigPath), w)
         | Some yml =>
             if read_ok w versioonConfigPath
             then match yaml_Unmarshal yml with
                  | Some config => (Ok config, w)
                  | None => (Err YamlError, w)
                  end
             else (Err (PathError "read" versioonConfigPath), w)
         end.
Proof.
  cbv zeta. unfold ParseVersioonConfig, os_Stat, os_ReadFile. unfold_M.
  destruct (stat_other_error w (path_Join basePath VrsConfigFileName));
    destruct (fs w !! path_Join basePath VrsConfigFileName) as [yml|] eqn:Hf;
    cbn [negb andb]; rewrite ?bool_decide_true by done;
    rewrite ?bool_decide_false by done; rewrite ?Hf; try reflexivity;
    (destruct (read_ok w _); [|reflexivity]); by destruct (yaml_Unmarshal yml).
Qed.

(** loading does not change the world *)
Lemma ParseVersioonConfig_world basePath w : (ParseVersioonConfig basePath w).2 = w.
Proof.
  rewrite ParseVersioonConfig_cases. cbv zeta.
  destruct (_ && _); [reflexivity|].
  destruct (fs w !! _); [|reflexivity].
  destruct (read_ok w _); [|reflexivity]. by destruct (yaml_Unmarshal _).
Qed.

Lemma ParseVersioonConfig_Ok basePath w config :
  (ParseVersioonConfig basePath w).1 = Ok config ->
  ParseVersioonConfig basePath w = (Ok config, w).
Proof.
  intros Hc. rewrite <- (ParseVersioonConfig_world basePath w) at 2.
  rewrite <- Hc. by destruct (ParseVersioonConfig basePath w).
Qed.

Lemma ParseVersioonConfig_NotFound basePath w :
  (ParseVersioonConfig basePath w).1 = Err NoVersioonFileFound
  <-> fs w !! path_Join basePath VrsConfigFileName = None
      /\ stat_other_error w (path_Join basePath VrsConfigFileName) = false.
Proof.
  rewrite ParseVersioonConfig_cases. cbv zeta.
  destruct (stat_other_error w _), (fs w !! _) as [yml|]; cbn [negb andb];
    rewrite ?bool_decide_true by done; rewrite ?bool_decide_false by done; cbn [fst];
    try (split; [discriminate | intros [? ?]; discriminate]); try done.
  - destruct (read_ok w _); [|split; [discriminate | intros [? ?]; discriminate]].
    destruct (yaml_Unmarshal _); (split; [discriminate | intros [? ?]; discriminate]).
  - destruct (read_ok w _); [|split; [discriminate | intros [? ?]; discriminate]].
    destruct (yaml_Unmarshal _); (split; [discriminate | intros [? ?]; discriminate]).
Qed.

(** C7 (as amended): loading the config, and with it reading the current
    version, fails with the sentinel [NoVersioonFileFound] exactly when
    there is no file [vrs.yml] in the base directory and [os.Stat] reports
    it as not existing.  A file that is absent while [os.Stat] fails for
    another reason, or that cannot be read or parsed, gives another
    error. *)
Theorem NoVersioonFileFound_iff_Stat_not_exist (options : ReadCurrentOptions.t) (w : World) :
  let versioonConfigPath :=
    path_Join (ReadCurrentOptions.Basedir options) VrsConfigFileName in
  ((ParseVersioonConfig (ReadCurrentOptions.Basedir options) w).1 = Err NoVersioonFileFound
   <-> fs w !! versioonConfigPath = None /\ stat_other_error w versioonConfigPath = false)
  /\ ((ReadCurrentVersion (Some options) w).1 = Err NoVersioonFileFound
      <-> fs w !! versioonConfigPath = None /\ stat_other_error w versioonConfigPath = false).
Proof.
  cbv zeta. split; [apply ParseVersioonConfig_NotFound|].
  rewrite <- ParseVersioonConfig_NotFound.
  unfold ReadCurrentVersion. unfold_M.
  destruct (ParseVersioonConfig _ w) as [[c|e|q] w']; simpl;
    [split; discriminate | split; intros [= ->]; reflexivity | split; discriminate].
Qed.

(** *** Bump: failures of the version computation *)

Lemma Bump_version_failure (options : BumpOptions.t) w config :
  (ParseVersioonConfig (BumpOptions.Basedir options) w).1 = Ok config ->
  (forall v, bumpedVersion (Version config) <> Ok v) ->
  Bump (Some options) w
  = (match bumpedVersion (Version config) with
     | Ok _ => Ok tt
     | Err e => Err e
     | Panic p => Panic p
     end, w).
Proof.
  intros Hc%ParseVersioonConfig_Ok Hv. unfold Bump. unfold_M. rewrite Hc.
  destruct (bumpedVersion (Version config)) as [v|e|q]; [by destruct (Hv v)|done..].
Qed.

(** C6: when the second part of the config's version is not an integer,
    [Bump] returns the parse error of [strconv.Atoi] and the world is as it
    was: no file was written and no command was run. *)
Theorem Bump_parse_error_leaves_world (options : BumpOptions.t) (w : World)
    (config : VrsConfig) (part1 : string) :
  (ParseVersioonConfig (BumpOptions.Basedir options) w).1 = Ok config ->
  strings.Split (Version config) "." !! 1%nat = Some part1 ->
  (forall n, strconv.Atoi part1 <> Ok n) ->
  Bump (Some options) w = (Err (NumError "Atoi" part1), w).
Proof.
  intros Hc H1 Hn.
  rewrite (Bump_version_failure _ _ _ Hc);
    rewrite (bumpedVersion_not_a_number _ _ H1 Hn); [reflexivity | discriminate].
Qed.


(** *** Running a list of actions *)

Lemma perform_cases a w :
  (perform a w = (Ok tt, {| fs := apply_action (fs w) a; trace := trace w ++ [done a] |}))
  \/ (exists e, perform a w = (Err e, {| fs := fs w; trace := trace w ++ [failed a] |})).
Proof.
  destruct a as [name data perm|dir name args]; simpl.
  - unfold os_WriteFile, record. destruct (write_ok w name); [by left | right; eauto].
  - unfold exec_Run, record. destruct (run_ok w dir name args); [by left | right; eauto].
Qed.

(** the actions run in order; the first one that fails ends the run with
    its error *)
Lemma for_range_perform plan w :
  (for_range plan perform w
   = (Ok tt, {| fs := foldl apply_action (fs w) plan;
                trace := trace w ++ map done plan |}))
  \/ (exists e pre a post,
        plan = pre ++ a :: post /\
        for_range plan perform w
        = (Err e, {| fs := foldl apply_action (fs w) pre;
                     trace := trace w ++ map done pre ++ [failed a] |})).
Proof.
  revert w. induction plan as [|a plan IH]; intros w.
  - left. simpl. unfold_M. destruct w. by rewrite app_nil_r.
  - cbn [for_range]. unfold_M.
    destruct (perform_cases a w) as [-> | [e ->]].
    + destruct (IH {| fs := apply_action (fs w) a; trace := trace w ++ [done a] |})
        as [-> | (e & pre & b & post & -> & ->)].
      * left. simpl. by rewrite <- app_assoc.
      * right. exists e, (a :: pre), b, post. split; [done|].
        simpl. by rewrite <- app_assoc.
    + right. exists e, [], a, plan. split; done.
Qed.

(** *** The operations as plans *)

Lemma seq_tt (m : M unit) w : (m ;; mret tt) w = m w.
Proof. unfold_M. by destruct (m w) as [[[]| |] ?]. Qed.

Lemma WriteAndCommit_actions config baseDir commit push commitMessage w :
  WriteAndCommit config baseDir commit push commitMessage w
  = (yml ← yaml_result (yaml_Marshal config);
     for_range (config_actions baseDir yml commitMessage (Version config) commit push)
       perform) w.
Proof.
  unfold WriteAndCommit, Write, config_actions, git. unfold_M.
  destruct (yaml_Marshal config) as [yml|]; [|reflexivity].
  cbn [for_range perform]. unfold_M.
  destruct (os_WriteFile _ yml perm_0600 w) as [[[]|e|q] w1]; [|reflexivity..].
  destruct commit; [|reflexivity]. cbn [app for_range perform]. unfold_M.
  destruct (exec_Run _ _ _ w1) as [[[]|e|q] w2]; [|reflexivity..].
  destruct (exec_Run _ _ _ w2) as [[[]|e|q] w3]; [|reflexivity..].
  destruct (exec_Run _ _ _ w3) as [[[]|e|q] w4]; [|reflexivity..].
  destruct push; [|reflexivity]. cbn [app for_range perform]. unfold_M.
  destruct (exec_Run _ _ _ w4) as [[[]|e|q] w5]; [|reflexivity..].
  by destruct (exec_Run _ _ _ w5) as [[[]|e|q] w6].
Qed.

Lemma bumpInFile_actions baseDir gitCommit file oldVersion oldExpression newVersion w :
  bumpInFile baseDir gitCommit file oldVersion oldExpression newVersion w
  = (originalBytes ← os_ReadFile (path_Join baseDir file);
     bumpedFile ← lift (bumpedContent oldVersion oldExpression newVersion originalBytes);
     for_range (file_actions baseDir gitCommit file bumpedFile) perform) w.
Proof.
  unfold bumpInFile, file_actions, git. unfold_M.
  destruct (os_ReadFile _ w) as [[data|e|q] w0]; [|reflexivity..].
  destruct (bumpedContent _ _ _ data) as [c|e|q]; [|reflexivity..].
  cbn [for_range perform]. unfold_M.
  destruct (os_WriteFile _ c perm_0600 w0) as [[[]|e|q] w1]; [|reflexivity..].
  destruct gitCommit; [|reflexivity]. cbn [for_range perform]. unfold_M.
  destruct (exec_Run _ _ _ w1) as [[[]|e|q] w2]; [|reflexivity..].
  by destruct (exec_Run _ _ _ w2) as [[[]|e|q] w3].
Qed.

Lemma os_ReadFile_Ok name data w :
  fs w !! name = Some data -> read_ok w name = true ->
  os_ReadFile name w = (Ok data, w).
Proof. intros Hf Hr. unfold os_ReadFile. by rewrite Hf, Hr. Qed.

(** *** SubstitutionEngine: a pattern that does not compile *)

Lemma bumpInFile_Compile_error baseDir gitCommit file oldExpression newVersion data w :
  fs w !! path_Join baseDir file = Some data ->
  read_ok w (path_Join baseDir file) = true ->
  regexp_Compile oldExpression = None ->
  bumpInFile baseDir gitCommit file "" oldExpression newVersion w
  = (Err (RegexpError oldExpression), w).
Proof.
  intros Hf Hr Hc. unfold bumpInFile. unfold_M.
  rewrite (os_ReadFile_Ok _ _ _ Hf Hr). unfold bumpedContent.
  rewrite bool_decide_false by (intros Hne; by apply Hne). by rewrite Hc.
Qed.

(** C10: when the pattern of a pattern-mode rewrite does not compile, the
    rewrite fails with the error of [regexp.Compile] after the file was
    read: nothing is written and no command is run, the files and the trace
    of attempted actions are as before. *)
Theorem bumpInFile_invalid_pattern (baseDir : string) (gitCommit : bool)
    (file oldExpression newVersion data : string) (w : World) :
  fs w !! path_Join baseDir file = Some data ->
  read_ok w (path_Join baseDir file) = true ->
  regexp_Compile oldExpression = None ->
  let after := bumpInFile baseDir gitCommit file "" oldExpression newVersion w in
  after.1 = Err (RegexpError oldExpression)
  /\ fs after.2 = fs w
  /\ trace after.2 = trace w.
Proof.
  intros Hf Hr Hc after. subst after.
  by rewrite (bumpInFile_Compile_error _ _ _ _ _ _ _ Hf Hr Hc).
Qed.

(** *** SubstitutionEngine: literal mode *)

Lemma exec_Run_fs dir name args w : fs (exec_Run dir name args w).2 = fs w.
Proof. unfold exec_Run. by destruct (run_ok w dir name args). Qed.

(** after the write of a sync target succeeded, the files hold its new
    content whatever the commands that follow do *)
Lemma file_actions_fs baseDir gitCommit file data w :
  write_ok w (path_Join baseDir file) = true ->
  fs (for_range (file_actions baseDir gitCommit file data) perform w).2
  = <[path_Join baseDir file := data]> (fs w)
  /\ (gitCommit = false ->
      (for_range (file_actions baseDir gitCommit file data) perform w).1 = Ok tt).
Proof.
  intros Hw. unfold file_actions. cbn [for_range perform]. unfold_M.
  unfold os_WriteFile. rewrite Hw.
  destruct gitCommit; [|done]. split; [|done].
  cbn [for_range perform]. unfold_M.
  match goal with |- context [exec_Run ?d ?n ?a ?w0] =>
    pose proof (exec_Run_fs d n a w0) as H1;
    destruct (exec_Run d n a w0) as [[[]|e|q] w1]; simpl in H1; [|simpl; by rewrite H1..] end.
  match goal with |- context [exec_Run ?d ?n ?a w1] =>
    pose proof (exec_Run_fs d n a w1) as H2;
    destruct (exec_Run d n a w1) as [[[]|e|q] w2]; simpl in H2 end.
  all: simpl; by rewrite H2, H1.
Qed.

(** how the actions on a sync target end once its write succeeded: without
    an error, or, in commit mode, with the error of the first [git] command
    that failed *)
Lemma file_actions_outcome baseDir gitCommit file data w :
  write_ok w (path_Join baseDir file) = true ->
  let after := for_range (file_actions baseDir gitCommit file data) perform w in
  after.1 = Ok tt
  \/ exists args,
       gitCommit = true
       /\ args ∈ [["add"; file]; ["commit"; "-m"; "Bumped version."]]%string
       /\ after.1 = Err (ExitError "git" args)
       /\ last (trace after.2) = Some (failed (Run baseDir "git" args)).
Proof.
  intros Hw after. subst after. unfold file_actions. cbn [for_range perform]. unfold_M.
  unfold os_WriteFile. rewrite Hw.
  destruct gitCommit; [|by left].
  cbn [for_range perform]. unfold_M.
  match goal with |- context [exec_Run ?d ?n ?a ?w0] =>
    destruct (exec_Run d n a w0) as [o1 w1] eqn:H1; unfold exec_Run in H1;
    destruct (run_ok w0 d n a); injection H1 as <- <- end.
  - match goal with |- context [exec_Run ?d ?n ?a ?w0] =>
      destruct (exec_Run d n a w0) as [o2 w2] eqn:H2; unfold exec_Run in H2;
      destruct (run_ok w0 d n a); injection H2 as <- <- end.
    + by left.
    + right. eexists. split; [done|]. split; [apply list_elem_of_further, list_elem_of_here|].
      split; [reflexivity|]. cbn. apply last_snoc.
  - right. eexists. split; [done|]. split; [apply list_elem_of_here|].
    split; [reflexivity|]. cbn. apply last_snoc.
Qed.

(** C5 (as amended): in literal mode (the sync file has no pattern) the
    content of the file is cut at every occurrence of the old version, from
    left to right, and the pieces, none of which contains the old version,
    are joined again with the new version in between: every occurrence is
    replaced and all other bytes stay; when the old version does not occur
    the content written back is the original one.  The rewrite itself
    raises no error: without commit mode the call returns without error,
    and in commit mode it returns an error only when [git add] or
    [git commit] failed, after the file was written. *)
Theorem literal_mode_replaces_old_version (options : BumpOptions.t)
    (oldVersion newVersion data : string) (file : SyncFile) (w : World) :
  let filePath := path_Join (BumpOptions.Basedir options) (Name file) in
  let pieces := strings.Split data oldVersion in
  let after := bumpSyncFile options oldVersion newVersion file w in
  Pattern file = ""%string -> oldVersion <> ""%string ->
  fs w !! filePath = Some data -> read_ok w filePath = true ->
  write_ok w filePath = true ->
  data = strings.Join pieces oldVersion
  /\ Forall (fun piece => ~ strings.occurs_in oldVersion piece) pieces
  /\ fs after.2 = <[filePath := strings.Join pieces newVersion]> (fs w)
  /\ (~ strings.occurs_in oldVersion data -> strings.Join pieces newVersion = data)
  /\ (BumpOptions.GitCommit options = false -> after.1 = Ok tt)
  /\ (after.1 = Ok tt
      \/ exists args,
           BumpOptions.GitCommit options = true
           /\ args ∈ [["add"; Name file]; ["commit"; "-m"; "Bumped version."]]%string
           /\ after.1 = Err (ExitError "git" args)
           /\ last (trace after.2)
              = Some (failed (Run (BumpOptions.Basedir options) "git" args))).
Proof.
  intros filePath pieces after Hp Hold Hf Hr Hw. subst filePath.
  assert (data = strings.Join pieces oldVersion) as Hjoin.
  { subst pieces. unfold strings.Split. destruct oldVersion; [done|].
    by rewrite Join_splitLoop. }
  split; [exact Hjoin|]. split.
  { subst pieces. unfold strings.Split. destruct oldVersion; [done|].
    by apply splitLoop_pieces. }
  assert (after
          = for_range (file_actions (BumpOptions.Basedir options)
                         (BumpOptions.GitCommit options) (Name file)
                         (strings.Join pieces newVersion)) perform w) as ->.
  { subst after. unfold bumpSyncFile. rewrite bool_decide_true by done.
    rewrite bumpInFile_actions. unfold_M.
    rewrite (os_ReadFile_Ok _ _ _ Hf Hr). unfold bumpedContent.
    rewrite bool_decide_true by done. by rewrite ReplaceAll_Join. }
  destruct (file_actions_fs (BumpOptions.Basedir options)
              (BumpOptions.GitCommit options) (Name file)
              (strings.Join pieces newVersion) w Hw) as [Hfs Hok].
  split; [exact Hfs|]. split.
  { intros Hno. subst pieces.
    rewrite (Split_single _ _ (proj2 (Cut_None_occurs _ _) Hno) Hold). reflexivity. }
  split; [exact Hok|]. by apply file_actions_outcome.
Qed.

(** *** SubstitutionEngine: pattern mode *)

(** a template without a dollar sign expands to itself *)
Lemma expand_plain re dst template src m :
  strings.Contains template "$" = false ->
  regexp.expand re dst template src m = dst +:+ template.
Proof.
  intros Hc%Contains_false. unfold regexp.expand.
  destruct (String.length template); cbn [regexp.expandLoop]; [reflexivity|].
  by rewrite Hc.
Qed.

Lemma replaceAllLoop_ext n re src repl1 repl2 buf lastMatchEnd searchPos :
  (forall dst m, repl1 dst m = repl2 dst m) ->
  regexp.replaceAllLoop n re src repl1 buf lastMatchEnd searchPos
  = regexp.replaceAllLoop n re src repl2 buf lastMatchEnd searchPos.
Proof.
  intros Hr. revert buf lastMatchEnd searchPos.
  induction n as [|n IH]; intros buf lastMatchEnd searchPos;
    cbn [regexp.replaceAllLoop]; [reflexivity|].
  destruct (_ <? searchPos); [reflexivity|].
  destruct (doExecute re src searchPos) as [|a0 [|a1 a]]; [reflexivity..|].
  rewrite Hr. apply IH.
Qed.

Lemma ReplaceAllString_plain re src repl :
  strings.Contains repl "$" = false ->
  regexp.ReplaceAllString re src repl = regexp.ReplaceAllLiteralString re src repl.
Proof.
  intros Hc. unfold regexp.ReplaceAllString, regexp.ReplaceAllLiteralString, regexp.replaceAll.
  apply replaceAllLoop_ext. intros dst m. by apply expand_plain.
Qed.

(** the expansion of a template is appended to the text before it *)
Lemma expandLoop_dst n names dst template src m :
  regexp.expandLoop n names dst template src m
  = dst +:+ regexp.expandLoop n names "" template src m.
Proof.
  revert dst template. induction n as [|n IH]; intros dst template;
    cbn [regexp.expandLoop]; [reflexivity|].
  destruct (strings.Cut template "$") as [[before after]|]; [|reflexivity].
  assert (forall text rest,
            regexp.expandLoop n names ((dst +:+ before) +:+ text) rest src m
            = dst +:+ regexp.expandLoop n names (("" +:+ before) +:+ text) rest src m) as Hstep.
  { intros text rest. rewrite IH. symmetry. rewrite IH.
    change ("" +:+ before) with before. by rewrite !append_assoc. }
  destruct after as [|c after'];
    [destruct (regexp.extract _) as [[[? ?] ?]|]; apply Hstep|].
  destruct c as [[] [] [] [] [] [] [] []];
    first [apply Hstep | destruct (regexp.extract _) as [[[? ?] ?]|]; apply Hstep].
Qed.

Lemma expand_dst re dst template src m :
  regexp.expand re dst template src m = dst +:+ regexp.expand re "" template src m.
Proof. apply expandLoop_dst. Qed.

(** the loop of [replaceAll] replaces every match: with rounds enough to
    reach the end of [src] it appends to [buf] a text in which every match
    found from [searchPos] on is replaced *)
Lemma replaceAllLoop_replaces_every_match re src repl text :
  (forall dst m, repl dst m = dst +:+ text m) ->
  regexp.match_ends_after_search re src ->
  forall n buf lastMatchEnd searchPos,
    Z.of_nat (String.length src) + 1 - searchPos <= Z.of_nat n ->
    exists out,
      regexp.replaceAllLoop n re src repl buf lastMatchEnd searchPos = buf +:+ out
      /\ regexp.replaces_every_match re src text lastMatchEnd searchPos out.
Proof.
  intros Hrepl Hends. induction n as [|n IH]; intros buf lastMatchEnd searchPos Hn;
    cbn [regexp.replaceAllLoop].
  { eexists. split; [reflexivity|]. apply regexp.no_search_left. lia. }
  destruct (Z.ltb_spec (Z.of_nat (String.length src)) searchPos) as [Hlt|Hle].
  { eexists. split; [reflexivity|]. by apply regexp.no_search_left. }
  destruct (doExecute re src searchPos) as [|a0 [|a1 groups]] eqn:Hm.
  1,2: eexists; split; [reflexivity|]; apply regexp.no_match_left; [done|];
       rewrite Hm; simpl; lia.
  pose proof (Hends _ _ _ _ Hm) as Ha1.
  set (width := (utf8.DecodeRuneInString (strings.drop (Z.to_nat searchPos) src)).2).
  set (searchPos' := if a1 <? searchPos + width then searchPos + width
                     else if a1 <? searchPos + 1 then searchPos + 1 else a1).
  assert (searchPos + 1 <= searchPos') as Hgrows.
  { subst searchPos'. destruct (Z.ltb_spec a1 (searchPos + width)); [lia|].
    destruct (Z.ltb_spec a1 (searchPos + 1)); lia. }
  set (buf' := if (lastMatchEnd <? a1) || (a0 =? 0)
               then repl (buf +:+ regexp.slice src lastMatchEnd a0) (a0 :: a1 :: groups)
               else buf +:+ regexp.slice src lastMatchEnd a0).
  destruct (IH buf' a1 searchPos' ltac:(lia)) as (out & -> & Hout).
  exists (regexp.slice src lastMatchEnd a0
          +:+ (if (lastMatchEnd <? a1) || (a0 =? 0) then text (a0 :: a1 :: groups) else "")
          +:+ out).
  split.
  - subst buf'. destruct ((lastMatchEnd <? a1) || (a0 =? 0)).
    + by rewrite Hrepl, !append_assoc.
    + by rewrite !append_assoc.
  - by eapply regexp.next_match.
Qed.

Lemma replaceAll_replaces_every_match re src repl text :
  (forall dst m, repl dst m = dst +:+ text m) ->
  regexp.match_ends_after_search re src ->
  regexp.replaces_every_match re src text 0 0 (regexp.replaceAll re src repl).
Proof.
  intros Hrepl Hends. unfold regexp.replaceAll.
  destruct (replaceAllLoop_replaces_every_match re src repl text Hrepl Hends
              (S (String.length src)) "" 0 0 ltac:(lia)) as (out & -> & Hout).
  exact Hout.
Qed.

(** there is one text in which every match is replaced *)
Lemma replaces_every_match_unique re src text lastMatchEnd searchPos out1 out2 :
  regexp.replaces_every_match re src text lastMatchEnd searchPos out1 ->
  regexp.replaces_every_match re src text lastMatchEnd searchPos out2 ->
  out1 = out2.
Proof.
  intros H1. revert out2.
  induction H1 as [l p Hlt | l p Hle Hno | l p a0 a1 groups out Hle Hm width p' _ IH];
    intros out2 H2;
    inversion H2 as [? ? Hlt2 | ? ? Hle2 Hno2
                    | ? ? b0 b1 groups2 out' Hle2 Hm2 width2 p2 Hout2];
    subst; try reflexivity; try lia.
  all: try (rewrite Hm2 in Hno; simpl in Hno; lia).
  all: try (rewrite Hm in Hno2; simpl in Hno2; lia).
  rewrite Hm in Hm2. injection Hm2 as <- <- <-.
  f_equal. f_equal. apply IH. exact Hout2.
Qed.

(** C4 (as amended): in pattern mode (the sync file has a pattern) the
    pattern is compiled as a regular expression, and the content written
    back is the content of the file in which every match is replaced, from
    the first to the one after which the matcher finds no other, by the
    expansion of the new version as a replacement template; for a new
    version without a dollar sign that is the new version as it is.  The
    matcher is taken to report matches that end at or after the position it
    searched from.  A pattern that does not compile makes the rewrite fail
    with the error of [regexp.Compile]. *)
Theorem pattern_mode_replaces_every_match (options : BumpOptions.t)
    (oldVersion newVersion data : string) (file : SyncFile) (w : World) :
  let filePath := path_Join (BumpOptions.Basedir options) (Name file) in
  let after := bumpSyncFile options oldVersion newVersion file w in
  Pattern file <> ""%string ->
  fs w !! filePath = Some data -> read_ok w filePath = true ->
  write_ok w filePath = true ->
  match regexp_Compile (Pattern file) with
  | Some re =>
      regexp.match_ends_after_search re data ->
      exists out,
        fs after.2 = <[filePath := out]> (fs w)
        /\ out = regexp.ReplaceAllString re data newVersion
        /\ regexp.replaces_every_match re data
             (fun m => regexp.expand re "" newVersion data m) 0 0 out
        /\ (strings.Contains newVersion "$" = false ->
            regexp.replaces_every_match re data (fun _ => newVersion) 0 0 out)
        /\ (BumpOptions.GitCommit options = false -> after.1 = Ok tt)
  | None => after = (Err (RegexpError (Pattern file)), w)
  end.
Proof.
  intros filePath after Hp Hf Hr Hw. subst filePath after.
  unfold bumpSyncFile. rewrite bool_decide_false by done.
  destruct (regexp_Compile (Pattern file)) as [re|] eqn:Hc.
  - intros Hends. rewrite bumpInFile_actions. unfold_M.
    rewrite (os_ReadFile_Ok _ _ _ Hf Hr). unfold bumpedContent.
    rewrite bool_decide_false by (intros Hne; by apply Hne). rewrite Hc.
    destruct (file_actions_fs (BumpOptions.Basedir options)
                (BumpOptions.GitCommit options) (Name file)
                (regexp.ReplaceAllString re data newVersion) w Hw) as [Hfs Hok].
    exists (regexp.ReplaceAllString re data newVersion).
    split; [exact Hfs|]. split; [reflexivity|]. split; [|split; [|exact Hok]].
    + apply replaceAll_replaces_every_match; [|exact Hends].
      intros dst m. apply expand_dst.
    + intros Hplain. apply replaceAll_replaces_every_match; [|exact Hends].
      intros dst m. by apply expand_plain.
  - by apply bumpInFile_Compile_error with (data := data).
Qed.

(** *** InitOperation *)

Lemma config_actions_fs files baseDir yml commitMessage version commit push :
  foldl apply_action files (config_actions baseDir yml commitMessage version commit push)
  = <[path_Join baseDir VrsConfigFileName := yml]> files.
Proof. by destruct commit, push. Qed.

(** what a [WriteAndCommit] that returned without error has done *)
Lemma WriteAndCommit_Ok config baseDir commit push commitMessage w w' :
  WriteAndCommit config baseDir commit push commitMessage w = (Ok tt, w') ->
  exists yml,
    yaml_Marshal config = Some yml
    /\ fs w' = <[path_Join baseDir VrsConfigFileName := yml]> (fs w)
    /\ trace w' = trace w ++ map done
         (config_actions baseDir yml commitMessage (Version config) commit push).
Proof.
  rewrite WriteAndCommit_actions.
  destruct (yaml_Marshal config) as [yml|]; unfold_M; [|discriminate].
  destruct (for_range_perform
              (config_actions baseDir yml commitMessage (Version config) commit push) w)
    as [-> | (e & pre & a & post & _ & ->)]; [|discriminate].
  intros [= <-]. exists yml. cbn [fs trace].
  split; [done|]. split; [apply config_actions_fs | reflexivity].
Qed.

(** C9: [Init] does not look for an existing config: when it returns
    without error the config file holds the document of a config with
    version ["0.0.0"], whatever was there before, written and (in commit
    mode) committed with the message "Initialized versioon file."; with a
    codec that reads its own document back, [ReadCurrentVersion] on the
    same base directory then returns ["0.0.0"]. *)
Theorem Init_then_ReadCurrentVersion (options : InitOptions.t)
    (readOptions : ReadCurrentOptions.t) (w w' : World) :
  let initial := {| Version := "0.0.0"; Config_Sync := None; Profiles := [] |} in
  let baseDir := InitOptions.Basedir options in
  Init (Some options) w = (Ok tt, w') ->
  ReadCurrentOptions.Basedir readOptions = baseDir ->
  reads_back_version initial ->
  read_ok w' (path_Join baseDir VrsConfigFileName) = true ->
  (exists yml,
     yaml_Marshal initial = Some yml
     /\ fs w' = <[path_Join baseDir VrsConfigFileName := yml]> (fs w)
     /\ trace w' = trace w ++ map done
          (config_actions baseDir yml "Initialized versioon file." "0.0.0"
             (InitOptions.GitCommit options) (InitOptions.GitPush options)))
  /\ ReadCurrentVersion (Some readOptions) w' = (Ok "0.0.0"%string, w').
Proof.
  intros initial baseDir Hinit Hbase Hback Hread. subst baseDir.
  unfold Init in Hinit. unfold mbind at 1, mret at 1, M_bind, M_ret in Hinit.
  apply WriteAndCommit_Ok in Hinit as (yml & Hm & Hfs & Htr).
  split; [by exists yml|].
  destruct (Hback yml Hm) as (config' & Hu & Hv).
  assert (fs w' !! path_Join (InitOptions.Basedir options) VrsConfigFileName
          = Some yml) as Hlook by (by rewrite Hfs, lookup_insert_eq).
  unfold ReadCurrentVersion. unfold_M. rewrite ParseVersioonConfig_cases. cbv zeta.
  rewrite Hbase, Hlook, Hread, Hu, bool_decide_false, andb_false_r by discriminate.
  by rewrite Hv.
Qed.

(** *** BumpOrchestrator: the order of the sync targets *)

Lemma bind_ext {A B} (m1 m2 : M A) (f1 f2 : A -> M B) w :
  (forall w, m1 w = m2 w) -> (forall a w, f1 a w = f2 a w) ->
  (m1 ≫= f1) w = (m2 ≫= f2) w.
Proof.
  intros Hm Hf. unfold_M. rewrite Hm.
  by destruct (m2 w) as [[a|e|q] w1].
Qed.

Lemma for_range_app {A} (xs ys : list A) (body : A -> M unit) w :
  for_range (xs ++ ys) body w = (for_range xs body ;; for_range ys body) w.
Proof.
  revert w. induction xs as [|x xs IH]; intros w; [reflexivity|].
  cbn [app for_range]. unfold_M.
  destruct (body x w) as [[[]|e|q] w1]; [apply IH | reflexivity..].
Qed.

Lemma bumpSync_for_range options oldVersion newVersion sync :
  bumpSync options oldVersion newVersion sync
  = for_range (from_option Files [] sync) (bumpSyncFile options oldVersion newVersion).
Proof. by destruct sync. Qed.

(** the inner loop applies a profile once if its name is active, and not
    at all otherwise *)
Lemma bumpProfile_active options oldVersion newVersion activeProfiles p w :
  bumpProfile options oldVersion newVersion activeProfiles (Some p) w
  = (if bool_decide (Profile_Name p ∈ activeProfiles)
     then bumpSync options oldVersion newVersion (Profile_Sync p)
     else mret tt) w.
Proof.
  induction activeProfiles as [|a actives IH]; [reflexivity|].
  cbn [bumpProfile]. unfold_M.
  destruct (String.eqb_spec a (Profile_Name p)) as [->|Hne].
  - rewrite bool_decide_true by apply list_elem_of_here. reflexivity.
  - unfold_M. rewrite IH.
    destruct (decide (Profile_Name p ∈ actives)) as [Hin|Hnin].
    + rewrite !bool_decide_true; [reflexivity | by apply list_elem_of_further | done].
    + rewrite !bool_decide_false; [reflexivity | | done].
      intros [Heq|Hin]%elem_of_cons; [congruence | by apply Hnin].
Qed.

(** X21: with a config whose profile entries are all present, the sync phase
    of [Bump] processes, one after the other and up to the first failure,
    the files of the global sync and then, for each profile in config order
    whose name is among the active profiles, the files of that profile: a
    profile is applied once however often its name is listed, later
    profiles are still looked at, and profiles that share a name all
    apply. *)
Theorem bumpSyncTargets_order (options : BumpOptions.t) (oldVersion : string)
    (config : VrsConfig) (w : World) :
  Forall is_Some (Profiles config) ->
  bumpSyncTargets options oldVersion config w
  = for_range (syncTargets config (BumpOptions.ActiveProfiles options))
      (bumpSyncFile options oldVersion (Version config)) w.
Proof.
  intros Hsome. unfold bumpSyncTargets, syncTargets.
  rewrite for_range_app, bumpSync_for_range.
  apply bind_ext; [reflexivity|]. intros _. clear w.
  induction Hsome as [|profile profiles [p ->] _ IH]; intros w; [reflexivity|].
  cbn [for_range flat_map]. rewrite for_range_app.
  apply bind_ext; [|intros _; apply IH].
  intros w1. rewrite bumpProfile_active.
  case_bool_decide; [by rewrite bumpSync_for_range | reflexivity].
Qed.

(** *** BumpOrchestrator: the config is committed and tagged before any sync *)

Lemma runs_sync_ret baseDir : runs_sync baseDir (mret tt).
Proof.
  intros w. exists [], []. cbn. rewrite app_nil_r. split; [done|]. split; [by left | done].
Qed.

Lemma runs_sync_fails baseDir (m : M unit) :
  (forall w, (m w).2 = w /\ (m w).1 <> Ok tt) -> runs_sync baseDir m.
Proof.
  intros Hm w. destruct (Hm w) as [-> Hne]. exists [], []. cbn.
  rewrite app_nil_r. split; [done|]. split; [by left | done].
Qed.

Lemma runs_sync_seq baseDir (m1 m2 : M unit) :
  runs_sync baseDir m1 -> runs_sync baseDir m2 -> runs_sync baseDir (m1 ;; m2).
Proof.
  intros H1 H2 w. destruct (H1 w) as (s1 & t1 & Htr1 & Hend1 & Hok1). unfold_M.
  destruct (m1 w) as [[[]|e|q] w1]; cbn [fst snd] in *.
  - rewrite (Hok1 eq_refl), app_nil_r in Htr1.
    destruct (H2 w1) as (s2 & t2 & Htr2 & Hend2 & Hok2).
    exists (s1 ++ s2), t2. split; [|done].
    rewrite Htr2, Htr1. unfold synced_events. by rewrite flat_map_app, <- !app_assoc.
  - exists s1, t1. cbn. done.
  - exists s1, t1. cbn. done.
Qed.

Lemma runs_sync_for_range {A} baseDir (xs : list A) (body : A -> M unit) :
  (forall x, runs_sync baseDir (body x)) -> runs_sync baseDir (for_range xs body).
Proof.
  intros Hbody. induction xs as [|x xs IH]; [apply runs_sync_ret|].
  cbn [for_range]. by apply runs_sync_seq.
Qed.

Lemma runs_sync_bumpInFile baseDir file oldVersion oldExpression newVersion :
  runs_sync baseDir (bumpInFile baseDir true file oldVersion oldExpression newVersion).
Proof.
  intros w. rewrite bumpInFile_actions. unfold_M.
  assert (forall (o : Outcome unit), o <> Ok tt ->
    exists synced tail,
      trace (o, w).2 = trace w ++ synced_events baseDir synced ++ tail
      /\ ended_early baseDir tail /\ ((o, w).1 = Ok tt -> tail = [])) as Hfail.
  { intros o Ho. exists [], []. cbn. rewrite app_nil_r. split; [done|]. split; [by left|done]. }
  unfold os_ReadFile. destruct (fs w !! _) as [data|]; [|by apply Hfail].
  destruct (read_ok w _); [|by apply Hfail].
  destruct (bumpedContent _ _ _ data) as [c|e|q]; [|by apply Hfail..].
  destruct (for_range_perform (file_actions baseDir true file c) w)
    as [-> | (e & pre & a & post & Hplan & ->)].
  - exists [(file, c)], []. cbn [fst snd trace synced_events flat_map].
    rewrite !app_nil_r. split; [done|]. split; [by left | done].
  - exists [], (map done pre ++ [failed a]). cbn [fst snd trace synced_events flat_map app].
    split; [done|]. split; [|discriminate].
    right. exists file, c, pre, a, post. done.
Qed.

Lemma runs_sync_bumpSyncFile options oldVersion newVersion file :
  BumpOptions.GitCommit options = true ->
  runs_sync (BumpOptions.Basedir options) (bumpSyncFile options oldVersion newVersion file).
Proof.
  intros Hc. unfold bumpSyncFile. rewrite Hc.
  case_bool_decide; apply runs_sync_bumpInFile.
Qed.

Lemma runs_sync_bumpSync options oldVersion newVersion sync :
  BumpOptions.GitCommit options = true ->
  runs_sync (BumpOptions.Basedir options) (bumpSync options oldVersion newVersion sync).
Proof.
  intros Hc. destruct sync as [sync|]; [|apply runs_sync_ret].
  apply runs_sync_for_range. intros file. by apply runs_sync_bumpSyncFile.
Qed.

Lemma runs_sync_bumpProfile options oldVersion newVersion activeProfiles profile :
  BumpOptions.GitCommit options = true ->
  runs_sync (BumpOptions.Basedir options)
    (bumpProfile options oldVersion newVersion activeProfiles profile).
Proof.
  intros Hc. induction activeProfiles as [|a actives IH]; [apply runs_sync_ret|].
  cbn [bumpProfile]. destruct profile as [p|].
  - intros w. unfold_M.
    destruct (String.eqb a (Profile_Name p)); [by apply runs_sync_bumpSync | apply IH].
  - apply runs_sync_fails. intros w. by unfold_M.
Qed.

Lemma runs_sync_bumpSyncTargets options oldVersion config :
  BumpOptions.GitCommit options = true ->
  runs_sync (BumpOptions.Basedir options) (bumpSyncTargets options oldVersion config).
Proof.
  intros Hc. unfold bumpSyncTargets. apply runs_sync_seq.
  - by apply runs_sync_bumpSync.
  - apply runs_sync_for_range. intros profile. by apply runs_sync_bumpProfile.
Qed.

(** C2: in commit mode, whatever fails or succeeds on the way, the trace of
    a [Bump] is a run of the config actions (write [vrs.yml], [git add], [git
    commit -m "Version bump."], [git tag v<newVersion>], and the pushes in
    push mode) followed by the trace of the sync phase.  Nothing of the
    sync phase happens unless all config actions succeeded, so every sync
    target is written after the tag was made; and each target that is
    written is staged and committed on its own, with the message "Bumped
    version.", before the next one is touched. *)
Theorem Bump_tags_before_sync (options : BumpOptions.t) (w : World) :
  BumpOptions.GitCommit options = true ->
  let baseDir := BumpOptions.Basedir options in
  exists t,
    trace (Bump (Some options) w).2 = trace w ++ t
    /\ (t = []
        \/ exists config newVersion yml,
             (ParseVersioonConfig baseDir w).1 = Ok config
             /\ bumpedVersion (Version config) = Ok newVersion
             /\ yaml_Marshal (with_Version config newVersion) = Some yml
             /\ let plan := config_actions baseDir yml "Version bump." newVersion
                              true (BumpOptions.GitPush options) in
                stopped_in plan t
                \/ exists s, t = map done plan ++ s /\ sync_trace baseDir s).
Proof.
  intros Hc baseDir. subst baseDir. unfold Bump. unfold_M.
  assert (forall (o : Outcome unit) P, exists t, trace (o, w).2 = trace w ++ t /\ (t = [] \/ P t))
    as Hnothing.
  { intros o P. exists []. cbn. rewrite app_nil_r. split; [done | by left]. }
  destruct (ParseVersioonConfig (BumpOptions.Basedir options) w) as [[config|e|q] w0] eqn:Hparse;
    pose proof (ParseVersioonConfig_world (BumpOptions.Basedir options) w) as Hw0;
    rewrite Hparse in Hw0; cbn in Hw0; subst w0; [|by apply Hnothing..].
  destruct (bumpedVersion (Version config)) as [newVersion|e|q] eqn:Hv; [|by apply Hnothing..].
  rewrite WriteAndCommit_actions, Hc.
  destruct (yaml_Marshal (with_Version config newVersion)) as [yml|] eqn:Hm;
    unfold_M; [|by apply Hnothing].
  cbn [Version with_Version].
  destruct (for_range_perform
              (config_actions (BumpOptions.Basedir options) yml "Version bump." newVersion
                 true (BumpOptions.GitPush options)) w)
    as [-> | (e & pre & a & post & Hplan & ->)].
  - match goal with |- context [bumpSyncTargets ?o ?v ?c ?w1] =>
      destruct (runs_sync_bumpSyncTargets o v c Hc w1) as (synced & tail & Htr & Hend & _)
    end.
    eexists. split.
    + rewrite Htr. cbn [trace]. rewrite <- app_assoc. reflexivity.
    + right. exists config, newVersion, yml. repeat (split; [done|]).
      right. eexists. split; [reflexivity|]. by exists synced, tail.
  - eexists. split; [cbn [snd trace]; reflexivity|].
    right. exists config, newVersion, yml. repeat (split; [done|]).
    left. by exists pre, a, post.
Qed.

End properties.

(** * The theorems on examples *)

Import Fixture.

(** C3 fails on the code: a config whose version has a single part makes
    [Bump] panic at [versionParts[1]] instead of returning an error. *)
Lemma Bump_panics_on_one_part_version :
  let w := world [("/p/vrs.yml"%string, print_config (config_of "1"))] in
  Bump (codec := yaml [config_of "1"]) (matching := matcher) (sys := os [])
    (Some (options [])) w
  = (Panic (IndexOutOfRange 1 1), w).
Proof. vm_compute. reflexivity. Qed.

Lemma Bump_parse_error_leaves_world_witness :
  let w := world [("/p/vrs.yml"%string, print_config (config_of "1.x.0"))] in
  Bump (codec := yaml [config_of "1.x.0"]) (matching := matcher) (sys := os [])
    (Some (options [])) w
  = (Err (NumError "Atoi" "x"), w).
Proof.
  intros w.
  apply (Bump_parse_error_leaves_world (codec := yaml [config_of "1.x.0"])
           (options []) w (config_of "1.x.0") "x").
  - vm_compute. reflexivity.
  - vm_compute. reflexivity.
  - intros n. vm_compute. discriminate.
Defined.

Lemma bumpInFile_invalid_pattern_witness :
  let w := world [("/p/a.txt"%string, "version: V"%string)] in
  let after := bumpInFile (matching := matcher) (sys := os [])
                 "/p" true "a.txt" "" "(" "0.2.0" w in
  after.1 = Err (RegexpError "(") /\ fs after.2 = fs w /\ trace after.2 = trace w.
Proof.
  intros w.
  apply (bumpInFile_invalid_pattern (matching := matcher) (sys := os [])
           "/p" true "a.txt" "(" "0.2.0" "version: V" w).
  - vm_compute. reflexivity.
  - vm_compute. reflexivity.
  - vm_compute. reflexivity.
Defined.

Lemma literal_mode_replaces_old_version_witness :
  let w := world [("/p/README.md"%string, "Release v0.1.0 and 0.1.0"%string)] in
  let file := {| Name := "README.md"; Pattern := "" |} in
  let after := bumpSyncFile (matching := matcher) (sys := os []) (quiet [])
                 "0.1.0" "0.2.0" file w in
  fs after.2 = <["/p/README.md"%string := "Release v0.2.0 and 0.2.0"%string]> (fs w)
  /\ after.1 = Ok tt.
Proof.
  intros w file after.
  destruct (literal_mode_replaces_old_version (matching := matcher) (sys := os [])
              (quiet []) "0.1.0" "0.2.0" "Release v0.1.0 and 0.1.0" file w)
    as (_ & _ & Hfs & _ & Hok & _);
    [reflexivity | discriminate | vm_compute; reflexivity | reflexivity | reflexivity |].
  split; [exact Hfs | apply Hok; reflexivity].
Defined.

(** C5 as stated fails in commit mode: the old version does not occur in
    the file, the file is written back as it was, and [git commit], which
    fails when nothing has changed, makes the rewrite return its error. *)
Lemma literal_mode_no_op_returns_git_error :
  let w := world [("/p/README.md"%string, "no version here"%string)] in
  let file := {| Name := "README.md"; Pattern := "" |} in
  let after := bumpSyncFile (matching := matcher)
                 (sys := os [["commit"; "-m"; "Bumped version."]%string]) (options [])
                 "0.1.0" "0.2.0" file w in
  strings.Contains "no version here" "0.1.0" = false
  /\ fs after.2 !! "/p/README.md"%string = Some "no version here"%string
  /\ after.1 = Err (ExitError "git" ["commit"; "-m"; "Bumped version."]%string)
  /\ after.1 <> Ok tt.
Proof. vm_compute. repeat split; discriminate. Qed.

(** the example matcher reports matches that end behind the position the
    search started from *)
Lemma matcher_ends_after_search (re src : string) :
  regexp.match_ends_after_search (matching := matcher) re src.
Proof.
  intros pos a0 a1 groups. cbn [doExecute matcher].
  destruct (strings.Cut _ re) as [[before after]|]; [|discriminate].
  destruct (_ <? pos); [discriminate|]. intros [= <- <- <-]. lia.
Qed.

Lemma pattern_mode_replaces_every_match_witness :
  let w := world [("/p/a.txt"%string, "V: x version: V y, version: V"%string)] in
  let file := {| Name := "a.txt"; Pattern := "version: V" |} in
  let after := bumpSyncFile (matching := matcher) (sys := os []) (quiet [])
                 "0.1.0" "0.2.0" file w in
  after.1 = Ok tt
  /\ fs after.2 = <["/p/a.txt"%string := "V: x 0.2.0 y, 0.2.0"%string]> (fs w)
  /\ regexp.replaces_every_match (matching := matcher) "version: V"%string
       "V: x version: V y, version: V" (fun _ => "0.2.0"%string) 0 0
       "V: x 0.2.0 y, 0.2.0".
Proof.
  intros w file after.
  pose proof (pattern_mode_replaces_every_match (matching := matcher) (sys := os [])
                (quiet []) "0.1.0" "0.2.0" "V: x version: V y, version: V" file w) as H.
  specialize (H ltac:(discriminate) ltac:(vm_compute; reflexivity) eq_refl eq_refl).
  hnf in H. specialize (H (matcher_ends_after_search _ _)).
  destruct H as (out & Hfs & Hout & _ & Hplain & Hok).
  assert (out = "V: x 0.2.0 y, 0.2.0"%string) as Heq by (rewrite Hout; vm_compute; reflexivity).
  rewrite Heq in Hfs, Hplain.
  split; [apply Hok; reflexivity|]. split; [exact Hfs | apply Hplain; reflexivity].
Defined.

(** C4 as stated fails when the new version has a dollar sign in it: the
    version ["$0.1.0"] is bumped to ["$0.2.0"], and in the replacement [$0]
    stands for the text of the match. *)
Lemma pattern_mode_expands_dollar_sign :
  let w := world [("/p/a.txt"%string, "v=VERSION"%string)] in
  let file := {| Name := "a.txt"; Pattern := "VERSION" |} in
  let after := bumpSyncFile (matching := matcher) (sys := os []) (quiet [])
                 "$0.1.0" "$0.2.0" file w in
  bumpedVersion "$0.1.0" = Ok "$0.2.0"%string
  /\ regexp_Compile (Matcher := matcher) "VERSION" = Some "VERSION"%string
  /\ regexp.ReplaceAllLiteralString (matching := matcher) "VERSION"%string "v=VERSION" "$0.2.0"
     = "v=$0.2.0"%string
  /\ fs after.2 !! "/p/a.txt"%string = Some "v=VERSION.2.0"%string
  /\ fs after.2 !! "/p/a.txt"%string
     <> Some (regexp.ReplaceAllLiteralString (matching := matcher) "VERSION"%string
                "v=VERSION" "$0.2.0").
Proof. vm_compute. repeat split; discriminate. Qed.

(** C7 as stated fails when the config file is absent and [os.Stat] fails
    for another reason than that (the base directory cannot be searched, or
    a part of its path is a file): the error is the one of the read, not the
    sentinel. *)
Lemma absent_config_without_sentinel :
  let w := world [("/p/README.md"%string, "Release v0.1.0"%string)] in
  let sys := os_where ["/p/vrs.yml"%string] [] in
  let options := {| ReadCurrentOptions.Basedir := "/p"; ReadCurrentOptions.GitCommit := true;
                    ReadCurrentOptions.GitPush := true |} in
  fs w !! "/p/vrs.yml"%string = None
  /\ ParseVersioonConfig (codec := yaml []) (sys := sys) "/p" w
     = (Err (PathError "open" "/p/vrs.yml"), w)
  /\ ReadCurrentVersion (codec := yaml []) (sys := sys) (Some options) w
     = (Err (PathError "open" "/p/vrs.yml"), w)
  /\ PathError "open" "/p/vrs.yml" <> NoVersioonFileFound.
Proof. vm_compute. repeat split; discriminate. Qed.

(** C8 fails on the code: with a null entry in the list of profiles and an
    active profile given, the loop over the profiles dereferences the null
    entry at [profile.Name], and [Bump] panics after the new config was
    written; the profile [dev], which is active and comes later in the
    config, is never applied. *)
Lemma Bump_panics_on_null_profile :
  let w := world [("/p/vrs.yml"%string, print_config null_profile);
                  ("/p/c.txt"%string, "dev 0.1.0"%string)] in
  let after := Bump (codec := yaml [null_profile; with_Version null_profile "0.2.0"])
                 (matching := matcher) (sys := os []) (Some (quiet ["dev"%string])) w in
  syncTargets null_profile ["dev"%string] = [ {| Name := "c.txt"; Pattern := "" |} ]
  /\ after.1 = Panic NilDereference
  /\ fs after.2 !! "/p/vrs.yml"%string
     = Some (print_config (with_Version null_profile "0.2.0"))
  /\ fs after.2 !! "/p/c.txt"%string = Some "dev 0.1.0"%string.
Proof. vm_compute. repeat split. Qed.

Lemma bumpSyncTargets_order_witness :
  bumpSyncTargets (matching := matcher) (sys := os []) (options ["dev"; "dev"]%string)
    "0.1.0" (with_Version three_profiles "0.2.0") project
  = for_range
      [ {| Name := "README.md"; Pattern := "" |};
        {| Name := "a.txt"; Pattern := "version: V" |};
        {| Name := "c.txt"; Pattern := "" |} ]
      (bumpSyncFile (matching := matcher) (sys := os []) (options ["dev"; "dev"]%string)
         "0.1.0" "0.2.0") project.
Proof.
  apply (bumpSyncTargets_order (matching := matcher) (sys := os [])
           (options ["dev"; "dev"]%string) "0.1.0"
           (with_Version three_profiles "0.2.0") project).
  repeat constructor; by eexists.
Defined.

Lemma Init_then_ReadCurrentVersion_witness :
  let codec := yaml [config_of "0.0.0"; three_profiles] in
  let initOptions := {| InitOptions.Basedir := "/p"; InitOptions.GitCommit := true;
                        InitOptions.GitPush := true |} in
  let readOptions := {| ReadCurrentOptions.Basedir := "/p";
                        ReadCurrentOptions.GitCommit := true;
                        ReadCurrentOptions.GitPush := true |} in
  let w' := (Init (codec := codec) (sys := os []) (Some initOptions) project).2 in
  ReadCurrentVersion (codec := codec) (sys := os []) (Some readOptions) w'
  = (Ok "0.0.0"%string, w').
Proof.
  intros codec initOptions readOptions w'.
  apply (Init_then_ReadCurrentVersion (codec := codec) (sys := os [])
           initOptions readOptions project w').
  - vm_compute. reflexivity.
  - reflexivity.
  - intros yml [= <-]. eexists. split; vm_compute; reflexivity.
  - reflexivity.
Defined.

Lemma Bump_tags_before_sync_witness :
  let codec := yaml [three_profiles] in
  let o := options ["dev"; "dev"]%string in
  exists t,
    trace (Bump (codec := codec) (matching := matcher) (sys := os [["add"; "c.txt"]%string])
             (Some o) project).2 = trace project ++ t
    /\ (t = []
        \/ exists config newVersion yml,
             (ParseVersioonConfig (codec := codec) (sys := os [["add"; "c.txt"]%string])
                "/p" project).1 = Ok config
             /\ bumpedVersion (Version config) = Ok newVersion
             /\ yaml_Marshal (Yaml := codec) (with_Version config newVersion) = Some yml
             /\ let plan := config_actions (sys := os [["add"; "c.txt"]%string]) "/p" yml
                              "Version bump." newVersion true false in
                stopped_in plan t
                \/ exists s, t = map done plan ++ s
                     /\ sync_trace (sys := os [["add"; "c.txt"]%string]) "/p" s).
Proof.
  intros codec o.
  exact (Bump_tags_before_sync (codec := codec) (matching := matcher)
           (sys := os [["add"; "c.txt"]%string]) o project eq_refl).
Defined.

(** the end-to-end scenario: version ["0.1.0"], a global sync of
    [README.md] without a pattern *)
Example Bump_end_to_end :
  let config := {| Version := "0.1.0";
                   Config_Sync := Some {| Files := [ {| Name := "README.md"; Pattern := "" |} ] |};
                   Profiles := [] |} in
  let w := world [("/p/vrs.yml"%string, print_config config);
                  ("/p/README.md"%string, "Release v0.1.0"%string)] in
  let after := Bump (codec := yaml [config]) (matching := matcher) (sys := os [])
                 (Some (options [])) w in
  after.1 = Ok tt
  /\ fs after.2 !! "/p/vrs.yml"%string = Some (print_config (with_Version config "0.2.0"))
  /\ fs after.2 !! "/p/README.md"%string = Some "Release v0.2.0"%string
  /\ map action (trace after.2)
     = [ WriteFile "/p/vrs.yml" (print_config (with_Version config "0.2.0")) perm_0600;
         Run "/p" "git" ["add"; "vrs.yml"];
         Run "/p" "git" ["commit"; "-m"; "Version bump."];
         Run "/p" "git" ["tag"; "v0.2.0"];
         WriteFile "/p/README.md" "Release v0.2.0" perm_0600;
         Run "/p" "git" ["add"; "README.md"];
         Run "/p" "git" ["commit"; "-m"; "Bumped version."] ]%string.
Proof. vm_compute. repeat split. Qed.

(** * Further properties of the operations *)

(** ** [strconv]: printing and parsing an [int] *)

Section more_strconv.
Import strings strconv.

Lemma digits_of_uint_acc u acc :
  digits (NilEmpty.string_of_uint u) (Z.pos acc) = Some (Z.pos (Pos.of_uint_acc u acc)).
Proof.
  revert acc. induction u as [|u IH|u IH|u IH|u IH|u IH|u IH|u IH|u IH|u IH|u IH];
    intros acc; [reflexivity|..];
    cbn [NilEmpty.string_of_uint digits Pos.of_uint_acc];
    match goal with |- context [digit ?c] =>
      let d := eval vm_compute in (digit c) in change (digit c) with d end;
    cbv beta iota;
    match goal with |- digits _ ?z = _ =>
      match goal with |- _ = Some (Z.pos (Pos.of_uint_acc _ ?p)) =>
        replace z with (Z.pos p) by lia end end;
    apply IH.
Qed.

Lemma digits_of_uint u :
  digits (NilEmpty.string_of_uint u) 0 = Some (Z.of_N (Pos.of_uint u)).
Proof.
  induction u as [|u IH|u IH|u IH|u IH|u IH|u IH|u IH|u IH|u IH|u IH];
    [reflexivity | exact IH | ..];
    cbn [NilEmpty.string_of_uint digits Pos.of_uint];
    match goal with |- context [digit ?c] =>
      let d := eval vm_compute in (digit c) in change (digit c) with d end;
    cbv beta iota; apply (digits_of_uint_acc u).
Qed.

Lemma Atoi_unsigned u :
  u <> Decimal.Nil -> MinInt <= Z.of_N (Pos.of_uint u) <= MaxInt ->
  Atoi (NilEmpty.string_of_uint u) = Ok (Z.of_N (Pos.of_uint u)).
Proof.
  intros Hu Hr. pose proof (digits_of_uint u) as Hd.
  assert ((MinInt <=? Z.of_N (Pos.of_uint u)) && (Z.of_N (Pos.of_uint u) <=? MaxInt) = true) as Hb.
  { apply andb_true_iff. split; apply Z.leb_le; lia. }
  destruct u; [done|..]; unfold Atoi;
    cbn [NilEmpty.string_of_uint] in *; rewrite Hd; cbv beta iota; by rewrite Hb.
Qed.

Lemma Atoi_negated u :
  u <> Decimal.Nil -> MinInt <= - Z.of_N (Pos.of_uint u) <= MaxInt ->
  Atoi (String "-" (NilEmpty.string_of_uint u)) = Ok (- Z.of_N (Pos.of_uint u)).
Proof.
  intros Hu Hr. pose proof (digits_of_uint u) as Hd.
  assert ((MinInt <=? - Z.of_N (Pos.of_uint u)) && (- Z.of_N (Pos.of_uint u) <=? MaxInt) = true) as Hb.
  { apply andb_true_iff. split; apply Z.leb_le; lia. }
  destruct u; [done|..]; unfold Atoi;
    cbn [NilEmpty.string_of_uint] in *; rewrite Hd; cbv beta iota; by rewrite Hb.
Qed.

Lemma string_of_uint_not_nil u :
  u <> Decimal.Nil -> NilZero.string_of_uint u = NilEmpty.string_of_uint u.
Proof. by destruct u. Qed.

(** what [%d] prints for an [int], [Atoi] parses back *)
Lemma Atoi_Itoa z : MinInt <= z <= MaxInt -> Atoi (Itoa z) = Ok z.
Proof.
  intros Hz. unfold Itoa. destruct z as [|p|p]; [reflexivity|..];
    cbn [Z.to_int NilZero.string_of_int];
    pose proof (DecimalPos.Unsigned.to_uint_nonnil p) as Hn;
    pose proof (DecimalPos.Unsigned.of_to p) as Hof;
    rewrite (string_of_uint_not_nil _ Hn).
  - rewrite Atoi_unsigned; rewrite ?Hof; [reflexivity | done | cbn; lia].
  - rewrite Atoi_negated; rewrite ?Hof; [reflexivity | done | cbn; lia].
Qed.

Lemma wrap_range z : MinInt <= wrap z <= MaxInt.
Proof.
  unfold wrap, MinInt, MaxInt, intSize.
  pose proof (Z.mod_pos_bound (z + 2 ^ (64 - 1)) (2 ^ 64) ltac:(lia)). lia.
Qed.

End more_strconv.

(** ** The version computation, in full *)

Section more_version.
Import strings strconv.

Lemma bumpedVersion_parts oldVersion part0 part1 part2 rest n :
  Split oldVersion "." = part0 :: part1 :: part2 :: rest ->
  Atoi part1 = Ok n ->
  bumpedVersion oldVersion = Ok (Sprintf_s_d_s part0 (wrap (n + 1)) part2).
Proof.
  intros Hs Hn. unfold bumpedVersion. rewrite Hs.
  cbn [at_index lookup list_lookup mbind Outcome_bind]. rewrite Hn. reflexivity.
Qed.

Lemma bumpedVersion_Ok_parts oldVersion newVersion :
  bumpedVersion oldVersion = Ok newVersion ->
  exists part0 part1 part2 rest n,
    Split oldVersion "." = part0 :: part1 :: part2 :: rest
    /\ Atoi part1 = Ok n
    /\ newVersion = Sprintf_s_d_s part0 (wrap (n + 1)) part2.
Proof.
  unfold bumpedVersion, at_index.
  destruct (Split oldVersion ".") as [|part0 [|part1 [|part2 rest]]] eqn:Hs;
    cbn [lookup list_lookup mbind Outcome_bind]; try discriminate.
  - destruct (Atoi part1); discriminate.
  - destruct (Atoi part1) as [n| |] eqn:Hn; cbn [mbind Outcome_bind mret Outcome_ret];
      [|discriminate..].
    intros [= <-]. by exists part0, part1, part2, rest, n.
Qed.

(** X1: the version computation succeeds exactly on versions of at least
    three dot-separated parts whose second part is an integer; the new
    version is made of the first part, the incremented second and the
    third, whatever parts come after the third are dropped. *)
Theorem bumpedVersion_Ok_iff (oldVersion newVersion : string) :
  bumpedVersion oldVersion = Ok newVersion
  <-> exists part0 part1 part2 rest n,
        Split oldVersion "." = part0 :: part1 :: part2 :: rest
        /\ Atoi part1 = Ok n
        /\ newVersion = Sprintf_s_d_s part0 (wrap (n + 1)) part2.
Proof.
  split; [apply bumpedVersion_Ok_parts|].
  intros (part0 & part1 & part2 & rest & n & Hs & Hn & ->).
  by apply bumpedVersion_parts with (part1 := part1) (rest := rest).
Qed.

Lemma Split_pieces_no_dot s piece :
  piece ∈ Split s "." -> Contains piece "." = false.
Proof.
  intros Hin. apply Contains_false, Cut_None_occurs.
  assert (Forall (fun piece => ~ occurs_in "." piece) (Split s ".")) as Hall.
  { unfold Split. by apply splitLoop_pieces. }
  rewrite Forall_forall in Hall. by apply Hall.
Qed.

(** X2: a bumped version has exactly three parts, the middle one being the
    decimal form of an [int]: it parses again, so that the version can be
    bumped once more and the increment applies to the number just
    written. *)
Theorem bumpedVersion_again (oldVersion newVersion : string) :
  bumpedVersion oldVersion = Ok newVersion ->
  exists part0 n part2,
    newVersion = Sprintf_s_d_s part0 n part2
    /\ Split newVersion "." = [part0; Itoa n; part2]
    /\ Atoi (Itoa n) = Ok n
    /\ bumpedVersion newVersion = Ok (Sprintf_s_d_s part0 (wrap (n + 1)) part2).
Proof.
  intros (part0 & part1 & part2 & rest & m & Hs & Hm & ->)%bumpedVersion_Ok_parts.
  pose proof (Atoi_Itoa _ (wrap_range (m + 1))) as Hn.
  assert (Split (Sprintf_s_d_s part0 (wrap (m + 1)) part2) "."
          = [part0; Itoa (wrap (m + 1)); part2]) as Hsplit.
  { unfold Sprintf_s_d_s. apply Split_three.
    - apply (Split_pieces_no_dot oldVersion). rewrite Hs. apply list_elem_of_here.
    - by apply Atoi_Ok_no_dot with (n := wrap (m + 1)).
    - apply (Split_pieces_no_dot oldVersion). rewrite Hs.
      do 2 apply list_elem_of_further. apply list_elem_of_here. }
  exists part0, (wrap (m + 1)), part2. repeat split; [done..|].
  by apply bumpedVersion_parts with (part1 := Itoa (wrap (m + 1))) (rest := []).
Qed.

Lemma bumpedVersion_again_witness :
  exists part0 n part2,
    "1.5.0"%string = Sprintf_s_d_s part0 n part2
    /\ Split "1.5.0" "." = [part0; Itoa n; part2]
    /\ Atoi (Itoa n) = Ok n
    /\ bumpedVersion "1.5.0" = Ok (Sprintf_s_d_s part0 (wrap (n + 1)) part2).
Proof. exact (bumpedVersion_again "1.4.0.9" "1.5.0" eq_refl). Defined.

End more_version.

(** ** What a sequence of steps keeps *)

Section keeps_facts.
Variable R : World -> World -> Prop.
Hypothesis R_refl : forall w, R w w.
Hypothesis R_trans : forall w1 w2 w3, R w1 w2 -> R w2 w3 -> R w1 w3.

Lemma keeps_lift {A} (o : Outcome A) : keeps R (lift o).
Proof. intros w. apply R_refl. Qed.

Lemma keeps_ret {A} (a : A) : keeps R (mret a : M A).
Proof. intros w. apply R_refl. Qed.

Lemma keeps_bind {A B} (m : M A) (f : A -> M B) :
  keeps R m -> (forall a, keeps R (f a)) -> keeps R (m ≫= f).
Proof.
  intros Hm Hf w. specialize (Hm w). unfold_M.
  destruct (m w) as [[a|e|q] w1]; cbn [snd] in *; [|done..].
  eapply R_trans; [exact Hm | apply Hf].
Qed.

Lemma keeps_for_range {A} (xs : list A) (body : A -> M unit) :
  (forall x, x ∈ xs -> keeps R (body x)) -> keeps R (for_range xs body).
Proof.
  induction xs as [|x xs IH]; intros Hbody; [apply keeps_ret|].
  cbn [for_range]. apply keeps_bind.
  - apply Hbody, list_elem_of_here.
  - intros _. apply IH. intros y Hy. by apply Hbody, list_elem_of_further.
Qed.

Lemma keeps_ext {A} (m1 m2 : M A) :
  (forall w, m1 w = m2 w) -> keeps R m2 -> keeps R m1.
Proof. intros Heq H2 w. rewrite Heq. apply H2. Qed.

End keeps_facts.

Section more_properties.
Context {codec : Yaml} {matching : Matcher} {sys : OS}.

(** *** ConfigStore *)

Lemma os_ReadFile_world name w : (os_ReadFile name w).2 = w.
Proof.
  unfold os_ReadFile. destruct (fs w !! name); [|reflexivity].
  by destruct (read_ok w name).
Qed.

(** X3: reading the current version never writes a file or runs a command,
    with or without options: the world is the one it started in. *)
Theorem ReadCurrentVersion_world (options : option ReadCurrentOptions.t) (w : World) :
  (ReadCurrentVersion options w).2 = w.
Proof.
  unfold ReadCurrentVersion, NewDefaultReadCurrentOptions, os_Getwd_result.
  assert (forall basePath,
            ((config ← ParseVersioonConfig basePath; mret (Version config)) w).2 = w) as Hp.
  { intros basePath. pose proof (ParseVersioonConfig_world basePath w) as Hw. unfold_M.
    by destruct (ParseVersioonConfig basePath w) as [[c|e|q] w0]. }
  destruct options as [o|]; [apply Hp|].
  destruct os_Getwd as [wd|]; [apply Hp | reflexivity].
Qed.

Lemma ParseVersioonConfig_of_file basePath w yml config :
  fs w !! path_Join basePath VrsConfigFileName = Some yml ->
  read_ok w (path_Join basePath VrsConfigFileName) = true ->
  yaml_Unmarshal yml = Some config ->
  ParseVersioonConfig basePath w = (Ok config, w).
Proof.
  intros Hf Hr Hu. rewrite ParseVersioonConfig_cases. cbv zeta.
  by rewrite Hf, Hr, Hu, bool_decide_false, andb_false_r by discriminate.
Qed.

(** X4: persisting a config and loading it again gives the same config,
    for a codec that reads its own documents back; whatever the file held
    before is gone. *)
Theorem Write_then_ParseVersioonConfig (config : VrsConfig) (basePath : string)
    (w w' : World) :
  Write config basePath w = (Ok tt, w') ->
  reads_back config ->
  read_ok w' (path_Join basePath VrsConfigFileName) = true ->
  ParseVersioonConfig basePath w' = (Ok config, w').
Proof.
  intros Hw Hback Hr. unfold Write, os_WriteFile in Hw.
  destruct (yaml_Marshal config) as [yml|] eqn:Hm; unfold_M; [|discriminate].
  destruct (write_ok w _); [|discriminate]. injection Hw as <-.
  apply ParseVersioonConfig_of_file with (yml := yml); [|done|by apply Hback].
  cbn. apply lookup_insert_eq.
Qed.

(** *** VCSCommitter *)

Lemma same_outside_refl paths w : same_outside paths w w.
Proof. by intros name _. Qed.

Lemma same_outside_trans paths w1 w2 w3 :
  same_outside paths w1 w2 -> same_outside paths w2 w3 -> same_outside paths w1 w3.
Proof. intros H12 H23 name Hn. by rewrite H23, H12. Qed.

Lemma only_wrote_refl w : only_wrote w w.
Proof. exists []. by rewrite app_nil_r. Qed.

Lemma only_wrote_trans w1 w2 w3 : only_wrote w1 w2 -> only_wrote w2 w3 -> only_wrote w1 w3.
Proof.
  intros (t1 & H1 & Hw1) (t2 & H2 & Hw2). exists (t1 ++ t2).
  rewrite H2, H1, <- app_assoc. split; [done|].
  rewrite forallb_app. by rewrite Hw1, Hw2.
Qed.

Lemma exec_Run_same_outside paths dir name args :
  keeps (same_outside paths) (exec_Run dir name args).
Proof. intros w n _. by rewrite exec_Run_fs. Qed.

Lemma os_WriteFile_same_outside paths name data perm :
  name ∈ paths -> keeps (same_outside paths) (os_WriteFile name data perm).
Proof.
  intros Hin w n Hn. unfold os_WriteFile.
  destruct (write_ok w name); [|reflexivity].
  cbn. apply lookup_insert_ne. intros ->. by apply Hn.
Qed.

Lemma os_WriteFile_only_wrote name data perm : keeps only_wrote (os_WriteFile name data perm).
Proof.
  intros w. unfold os_WriteFile, record.
  destruct (write_ok w name); eexists; (split; [reflexivity | reflexivity]).
Qed.

Lemma os_ReadFile_keeps R name : (forall w, R w w) -> keeps R (os_ReadFile name).
Proof. intros Hr w. rewrite os_ReadFile_world. apply Hr. Qed.

(** the commands after the write do not change the files *)
Lemma config_actions_fs_any baseDir yml commitMessage version commit push w :
  write_ok w (path_Join baseDir VrsConfigFileName) = true ->
  fs (for_range (config_actions baseDir yml commitMessage version commit push) perform w).2
  = <[path_Join baseDir VrsConfigFileName := yml]> (fs w).
Proof.
  intros Hw. unfold config_actions. cbn [for_range perform]. unfold_M.
  unfold os_WriteFile at 1. rewrite Hw.
  match goal with |- context [for_range ?plan perform ?w0] =>
    assert (keeps (same_outside []) (for_range plan perform)) as Hk
  end.
  { apply keeps_for_range; [apply same_outside_refl | apply same_outside_trans|].
    intros a Ha. destruct commit; [|by apply elem_of_nil in Ha].
    assert (exists args, a = Run baseDir "git" args) as [args ->].
    { destruct push; cbn [app] in Ha;
        repeat (apply elem_of_cons in Ha as [-> | Ha]; [by eexists|]);
        by apply elem_of_nil in Ha. }
    apply exec_Run_same_outside. }
  match goal with |- context [for_range ?plan perform ?w0] =>
    specialize (Hk w0); destruct (for_range plan perform w0) as [[[]|e|q] w1]
  end; cbn [snd fs] in *; apply map_eq; intros name; apply Hk, not_elem_of_nil.
Qed.

(** X5: [WriteAndCommit] never panics; it returns without error exactly
    when the document was written and every command succeeded, and
    otherwise stops at the first action that fails.  Nothing is rolled
    back: once the write succeeded the file holds the new document, whatever
    the commands do. *)
Theorem WriteAndCommit_outcome (config : VrsConfig) (baseDir : string)
    (commit push : bool) (commitMessage : string) (w : World) :
  let after := WriteAndCommit config baseDir commit push commitMessage w in
  match yaml_Marshal config with
  | None => after = (Err YamlError, w)
  | Some yml =>
      let plan := config_actions baseDir yml commitMessage (Version config) commit push in
      ((after.1 = Ok tt /\ trace after.2 = trace w ++ map done plan)
       \/ (exists e t, after.1 = Err e /\ trace after.2 = trace w ++ t /\ stopped_in plan t))
      /\ (write_ok w (path_Join baseDir VrsConfigFileName) = true ->
          fs after.2 = <[path_Join baseDir VrsConfigFileName := yml]> (fs w))
  end.
Proof.
  intros after. subst after. rewrite WriteAndCommit_actions.
  destruct (yaml_Marshal config) as [yml|]; unfold_M; [|reflexivity].
  cbv zeta. split.
  - destruct (for_range_perform
                (config_actions baseDir yml commitMessage (Version config) commit push) w)
      as [-> | (e & pre & a & post & Hplan & ->)].
    + left. done.
    + right. exists e, (map done pre ++ [failed a]). cbn [fst snd trace].
      split; [done|]. split; [done|]. by exists pre, a, post.
  - apply config_actions_fs_any.
Qed.

Lemma Write_only_wrote config basePath : keeps only_wrote (Write config basePath).
Proof.
  unfold Write. apply keeps_bind; [apply only_wrote_trans | |].
  - intros w0. destruct (yaml_Marshal config); apply only_wrote_refl.
  - intros yml. apply os_WriteFile_only_wrote.
Qed.

Lemma WriteAndCommit_is_Write config baseDir push commitMessage w :
  WriteAndCommit config baseDir false push commitMessage w = Write config baseDir w.
Proof. apply seq_tt. Qed.

(** X6: without commit mode [WriteAndCommit] is [Write]: the push flag and
    the commit message play no part and no command is attempted. *)
Theorem WriteAndCommit_without_commit (config : VrsConfig) (baseDir : string)
    (push : bool) (commitMessage : string) (w : World) :
  WriteAndCommit config baseDir false push commitMessage w = Write config baseDir w
  /\ only_wrote w (WriteAndCommit config baseDir false push commitMessage w).2.
Proof.
  split; [apply WriteAndCommit_is_Write|].
  rewrite WriteAndCommit_is_Write. apply Write_only_wrote.
Qed.

(** *** BumpOrchestrator: failures before anything is written *)

Lemma Bump_Some options w :
  Bump (Some options) w
  = (config ← ParseVersioonConfig (BumpOptions.Basedir options);
     newVersion ← lift (bumpedVersion (Version config));
     WriteAndCommit (with_Version config newVersion) (BumpOptions.Basedir options)
       (BumpOptions.GitCommit options) (BumpOptions.GitPush options) "Version bump." ;;
     bumpSyncTargets options (Version config) (with_Version config newVersion)) w.
Proof. reflexivity. Qed.

(** X7: a bump where there is no config file does nothing and returns an
    error: the sentinel [NoVersioonFileFound] when [os.Stat] reports the file
    as not existing, and the error of the read when [os.Stat] fails for
    another reason. *)
Theorem Bump_without_config (options : BumpOptions.t) (w : World) :
  let versioonConfigPath := path_Join (BumpOptions.Basedir options) VrsConfigFileName in
  fs w !! versioonConfigPath = None ->
  Bump (Some options) w
  = (Err (if stat_other_error w versioonConfigPath
          then PathError "open" versioonConfigPath
          else NoVersioonFileFound), w).
Proof.
  intros p Hf. subst p. rewrite Bump_Some. unfold_M.
  rewrite ParseVersioonConfig_cases. cbv zeta. rewrite Hf.
  rewrite bool_decide_true by done. by destruct (stat_other_error w _).
Qed.

(** X8: a version of exactly two parts whose second part is an integer
    passes the parse and makes [Bump] panic at [versionParts[2]], before
    anything is written. *)
Theorem Bump_two_part_version_panics (options : BumpOptions.t) (w : World)
    (config : VrsConfig) (part0 part1 : string) (n : Z) :
  (ParseVersioonConfig (BumpOptions.Basedir options) w).1 = Ok config ->
  strings.Split (Version config) "." = [part0; part1] ->
  strconv.Atoi part1 = Ok n ->
  Bump (Some options) w = (Panic (IndexOutOfRange 2 2), w).
Proof.
  intros Hc Hs Hn.
  assert (bumpedVersion (Version config) = Panic (IndexOutOfRange 2 2)) as Hv.
  { unfold bumpedVersion. rewrite Hs.
    cbn [at_index lookup list_lookup mbind Outcome_bind]. by rewrite Hn. }
  rewrite (Bump_version_failure _ _ _ Hc); rewrite Hv; [reflexivity | discriminate].
Qed.

(** *** SubstitutionEngine: a target that cannot be read *)

(** X9: when the sync target is missing or cannot be read, [bumpInFile]
    returns the error of the read, in either mode, and does nothing: the
    pattern is not even compiled. *)
Theorem bumpInFile_unreadable (baseDir : string) (gitCommit : bool)
    (file oldVersion oldExpression newVersion : string) (w : World) :
  (forall data, os_ReadFile (path_Join baseDir file) w <> (Ok data, w)) ->
  exists op,
    bumpInFile baseDir gitCommit file oldVersion oldExpression newVersion w
    = (Err (PathError op (path_Join baseDir file)), w).
Proof.
  intros Hr. unfold bumpInFile. unfold_M. revert Hr. unfold os_ReadFile.
  destruct (fs w !! _) as [data|]; [|by eexists].
  destruct (read_ok w _); [|by eexists].
  intros Hr. by destruct (Hr data).
Qed.

(** *** BumpOrchestrator: what a bump never does *)

Lemma bumpInFile_only_wrote baseDir file oldVersion oldExpression newVersion :
  keeps only_wrote (bumpInFile baseDir false file oldVersion oldExpression newVersion).
Proof.
  unfold bumpInFile.
  apply keeps_bind; [apply only_wrote_trans | apply os_ReadFile_keeps, only_wrote_refl |].
  intros data. apply keeps_bind; [apply only_wrote_trans | apply keeps_lift, only_wrote_refl |].
  intros c. apply keeps_bind; [apply only_wrote_trans | apply os_WriteFile_only_wrote |].
  intros _. apply keeps_ret, only_wrote_refl.
Qed.

Lemma deref_keeps {A} R (p : option A) : (forall w, R w w) -> keeps R (deref p).
Proof. intros Hr w. destruct p; apply Hr. Qed.

Lemma bumpSync_keeps R options oldVersion newVersion sync :
  (forall w, R w w) -> (forall w1 w2 w3, R w1 w2 -> R w2 w3 -> R w1 w3) ->
  (forall file, file ∈ from_option Files [] sync ->
     keeps R (bumpSyncFile options oldVersion newVersion file)) ->
  keeps R (bumpSync options oldVersion newVersion sync).
Proof.
  intros Hr Ht Hf. rewrite bumpSync_for_range. by apply keeps_for_range.
Qed.

Lemma bumpProfile_keeps R options oldVersion newVersion activeProfiles profile :
  (forall w, R w w) -> (forall w1 w2 w3, R w1 w2 -> R w2 w3 -> R w1 w3) ->
  (forall p file, profile = Some p -> Profile_Name p ∈ activeProfiles ->
     file ∈ from_option Files [] (Profile_Sync p) ->
     keeps R (bumpSyncFile options oldVersion newVersion file)) ->
  keeps R (bumpProfile options oldVersion newVersion activeProfiles profile).
Proof.
  intros Hr Ht Hf. destruct profile as [p|].
  - apply keeps_ext with
      (m2 := if bool_decide (Profile_Name p ∈ activeProfiles)
             then bumpSync options oldVersion newVersion (Profile_Sync p)
             else mret tt).
    + intros w. apply bumpProfile_active.
    + case_bool_decide as Hin; [|by apply keeps_ret].
      apply bumpSync_keeps; [done..|]. intros file Hfile. by apply (Hf p).
  - destruct activeProfiles; intros w; apply Hr.
Qed.

Lemma syncTargets_global config activeProfiles file :
  file ∈ from_option Files [] (Config_Sync config) ->
  file ∈ syncTargets config activeProfiles.
Proof. intros Hin. unfold syncTargets. apply elem_of_app. by left. Qed.

Lemma syncTargets_profile config activeProfiles p file :
  Some p ∈ Profiles config -> Profile_Name p ∈ activeProfiles ->
  file ∈ from_option Files [] (Profile_Sync p) ->
  file ∈ syncTargets config activeProfiles.
Proof.
  intros Hp Ha Hin. unfold syncTargets. apply elem_of_app. right.
  apply list_elem_of_In, in_flat_map. exists (Some p).
  split; [by apply list_elem_of_In|]. rewrite bool_decide_true by done.
  by apply list_elem_of_In.
Qed.

(** the sync phase keeps what the rewrite of each of its targets keeps *)
Lemma bumpSyncTargets_keeps R options oldVersion config :
  (forall w, R w w) -> (forall w1 w2 w3, R w1 w2 -> R w2 w3 -> R w1 w3) ->
  (forall file, file ∈ syncTargets config (BumpOptions.ActiveProfiles options) ->
     keeps R (bumpSyncFile options oldVersion (Version config) file)) ->
  keeps R (bumpSyncTargets options oldVersion config).
Proof.
  intros Hr Ht Hf. unfold bumpSyncTargets. apply keeps_bind; [done| |].
  - apply bumpSync_keeps; [done..|]. intros file Hin.
    by apply Hf, syncTargets_global.
  - intros _. apply keeps_for_range; [done..|]. intros profile Hprofile.
    apply bumpProfile_keeps; [done..|]. intros p file -> Ha Hin.
    by apply Hf, syncTargets_profile with (p := p).
Qed.

Lemma ParseVersioonConfig_keeps R basePath :
  (forall w, R w w) -> keeps R (ParseVersioonConfig basePath).
Proof. intros Hr w. rewrite ParseVersioonConfig_world. apply Hr. Qed.

(** X10: a bump without commit mode never attempts an external command:
    all it does to the outside is writing files, whatever the push flag
    says. *)
Theorem Bump_without_commit_runs_nothing (options : BumpOptions.t) (w : World) :
  BumpOptions.GitCommit options = false ->
  only_wrote w (Bump (Some options) w).2.
Proof.
  intros Hc. rewrite Bump_Some. revert w.
  apply keeps_bind;
    [apply only_wrote_trans | apply ParseVersioonConfig_keeps, only_wrote_refl |].
  intros config. apply keeps_bind;
    [apply only_wrote_trans | apply keeps_lift, only_wrote_refl |].
  intros newVersion. rewrite Hc. apply keeps_bind; [apply only_wrote_trans | |].
  - intros w. rewrite WriteAndCommit_is_Write. apply Write_only_wrote.
  - intros _. apply bumpSyncTargets_keeps; [apply only_wrote_refl | apply only_wrote_trans |].
    intros file _. unfold bumpSyncFile. rewrite Hc.
    case_bool_decide; apply bumpInFile_only_wrote.
Qed.

Lemma Bump_parsed options w config :
  (ParseVersioonConfig (BumpOptions.Basedir options) w).1 = Ok config ->
  Bump (Some options) w
  = (newVersion ← lift (bumpedVersion (Version config));
     WriteAndCommit (with_Version config newVersion) (BumpOptions.Basedir options)
       (BumpOptions.GitCommit options) (BumpOptions.GitPush options) "Version bump." ;;
     bumpSyncTargets options (Version config) (with_Version config newVersion)) w.
Proof.
  intros Hc%ParseVersioonConfig_Ok. rewrite Bump_Some. unfold_M. by rewrite Hc.
Qed.

Lemma perform_same_outside paths a :
  (forall name data perm, a = WriteFile name data perm -> name ∈ paths) ->
  keeps (same_outside paths) (perform a).
Proof.
  intros Ha. destruct a as [name data perm|dir name args]; cbn [perform].
  - apply os_WriteFile_same_outside. by eapply Ha.
  - apply exec_Run_same_outside.
Qed.

Lemma WriteAndCommit_same_outside paths config baseDir commit push commitMessage :
  path_Join baseDir VrsConfigFileName ∈ paths ->
  keeps (same_outside paths) (WriteAndCommit config baseDir commit push commitMessage).
Proof.
  intros Hin. eapply keeps_ext; [intros w; apply WriteAndCommit_actions|].
  apply keeps_bind; [apply same_outside_trans | |].
  - intros w. destruct (yaml_Marshal config); apply same_outside_refl.
  - intros yml. apply keeps_for_range; [apply same_outside_refl | apply same_outside_trans |].
    intros a Ha. apply perform_same_outside. intros name data perm ->.
    unfold config_actions in Ha. apply elem_of_cons in Ha as [[= -> _ _]|Ha]; [done|].
    destruct commit; [|by apply elem_of_nil in Ha].
    destruct push; cbn [app] in Ha;
      repeat (apply elem_of_cons in Ha as [? | Ha]; [discriminate|]);
      by apply elem_of_nil in Ha.
Qed.

Lemma bumpInFile_same_outside paths baseDir gitCommit file oldVersion oldExpression newVersion :
  path_Join baseDir file ∈ paths ->
  keeps (same_outside paths)
    (bumpInFile baseDir gitCommit file oldVersion oldExpression newVersion).
Proof.
  intros Hin. eapply keeps_ext; [intros w; apply bumpInFile_actions|].
  apply keeps_bind; [apply same_outside_trans | apply os_ReadFile_keeps, same_outside_refl |].
  intros data. apply keeps_bind;
    [apply same_outside_trans | apply keeps_lift, same_outside_refl |].
  intros c. apply keeps_for_range; [apply same_outside_refl | apply same_outside_trans |].
  intros a Ha. apply perform_same_outside. intros name d perm ->.
  unfold file_actions in Ha. apply elem_of_cons in Ha as [[= -> _ _]|Ha]; [done|].
  destruct gitCommit; [|by apply elem_of_nil in Ha].
  repeat (apply elem_of_cons in Ha as [? | Ha]; [discriminate|]);
    by apply elem_of_nil in Ha.
Qed.

Lemma bumpSyncFile_same_outside paths options oldVersion newVersion file :
  path_Join (BumpOptions.Basedir options) (Name file) ∈ paths ->
  keeps (same_outside paths) (bumpSyncFile options oldVersion newVersion file).
Proof.
  intros Hin. unfold bumpSyncFile. case_bool_decide; by apply bumpInFile_same_outside.
Qed.

(** the sync phase writes its targets only *)
Lemma bumpSyncTargets_same_outside options oldVersion config :
  keeps (same_outside
           (map (fun file => path_Join (BumpOptions.Basedir options) (Name file))
              (syncTargets config (BumpOptions.ActiveProfiles options))))
    (bumpSyncTargets options oldVersion config).
Proof.
  apply bumpSyncTargets_keeps; [apply same_outside_refl | apply same_outside_trans |].
  intros file Hin. apply bumpSyncFile_same_outside.
  apply list_elem_of_fmap. by exists file.
Qed.

Lemma same_outside_weaken paths paths' w w' :
  (forall name, name ∈ paths -> name ∈ paths') ->
  same_outside paths w w' -> same_outside paths' w w'.
Proof. intros Hsub Hs name Hn. apply Hs. intros Hin. by apply Hn, Hsub. Qed.

(** X11: a bump writes no file but the config file and the sync targets it
    processes (the global ones and those of the active profiles): every
    other file is afterwards as it was before, however the bump ends. *)
Theorem Bump_same_outside (options : BumpOptions.t) (w : World) (config : VrsConfig) :
  (ParseVersioonConfig (BumpOptions.Basedir options) w).1 = Ok config ->
  same_outside
    (bump_paths (BumpOptions.Basedir options) config (BumpOptions.ActiveProfiles options))
    w (Bump (Some options) w).2.
Proof.
  intros Hc. rewrite (Bump_parsed _ _ _ Hc). revert w Hc. intros w _. revert w.
  apply keeps_bind; [apply same_outside_trans | apply keeps_lift, same_outside_refl |].
  intros newVersion. apply keeps_bind; [apply same_outside_trans | |].
  - apply WriteAndCommit_same_outside. apply list_elem_of_here.
  - intros _ w. eapply same_outside_weaken;
      [|apply (bumpSyncTargets_same_outside options (Version config)
                 (with_Version config newVersion) w)].
    intros name Hin. by apply list_elem_of_further.
Qed.

(** the sync phase leaves the config file alone unless it is a sync target *)
Lemma bumpSyncTargets_config_file options oldVersion config w :
  path_Join (BumpOptions.Basedir options) VrsConfigFileName
    ∉ map (fun file => path_Join (BumpOptions.Basedir options) (Name file))
        (syncTargets config (BumpOptions.ActiveProfiles options)) ->
  fs (bumpSyncTargets options oldVersion config w).2
    !! path_Join (BumpOptions.Basedir options) VrsConfigFileName
  = fs w !! path_Join (BumpOptions.Basedir options) VrsConfigFileName.
Proof. intros Hn. by apply bumpSyncTargets_same_outside. Qed.

(** X12: nothing is rolled back.  Once the new config document is written,
    the config file holds it at the end of the bump, whether the commits,
    the tag, the pushes and the sync of the targets succeed, fail or panic
    (the config file not being a sync target itself). *)
Theorem Bump_keeps_new_config (options : BumpOptions.t) (w : World)
    (config : VrsConfig) (newVersion yml : string) :
  let versioonConfigPath := path_Join (BumpOptions.Basedir options) VrsConfigFileName in
  (ParseVersioonConfig (BumpOptions.Basedir options) w).1 = Ok config ->
  bumpedVersion (Version config) = Ok newVersion ->
  yaml_Marshal (with_Version config newVersion) = Some yml ->
  write_ok w versioonConfigPath = true ->
  versioonConfigPath
    ∉ map (fun file => path_Join (BumpOptions.Basedir options) (Name file))
        (syncTargets config (BumpOptions.ActiveProfiles options)) ->
  fs (Bump (Some options) w).2 !! versioonConfigPath = Some yml.
Proof.
  intros p Hc Hv Hm Hw Hn. subst p. rewrite (Bump_parsed _ _ _ Hc). unfold_M.
  rewrite Hv. rewrite WriteAndCommit_actions. rewrite Hm. unfold_M.
  pose proof (config_actions_fs_any (BumpOptions.Basedir options) yml "Version bump."
                (Version (with_Version config newVersion))
                (BumpOptions.GitCommit options) (BumpOptions.GitPush options) w Hw) as Hfs.
  destruct (for_range _ perform w) as [[[]|e|q] w1]; cbn [snd] in *;
    [|by rewrite Hfs, lookup_insert_eq..].
  rewrite bumpSyncTargets_config_file by exact Hn.
  by rewrite Hfs, lookup_insert_eq.
Qed.

Lemma ReadCurrentVersion_of_file options w yml config :
  fs w !! path_Join (ReadCurrentOptions.Basedir options) VrsConfigFileName = Some yml ->
  read_ok w (path_Join (ReadCurrentOptions.Basedir options) VrsConfigFileName) = true ->
  yaml_Unmarshal yml = Some config ->
  ReadCurrentVersion (Some options) w = (Ok (Version config), w).
Proof.
  intros Hf Hr Hu. unfold ReadCurrentVersion. unfold_M.
  by rewrite (ParseVersioonConfig_of_file _ _ _ _ Hf Hr Hu).
Qed.

(** X13: after a bump that returned without error, reading the current
    version gives the bumped version (for a codec that reads the version
    of its own document back, the config file not being a sync target). *)
Theorem Bump_then_ReadCurrentVersion (options : BumpOptions.t)
    (readOptions : ReadCurrentOptions.t) (w w' : World)
    (config : VrsConfig) (newVersion : string) :
  let versioonConfigPath := path_Join (BumpOptions.Basedir options) VrsConfigFileName in
  Bump (Some options) w = (Ok tt, w') ->
  (ParseVersioonConfig (BumpOptions.Basedir options) w).1 = Ok config ->
  bumpedVersion (Version config) = Ok newVersion ->
  reads_back_version (with_Version config newVersion) ->
  versioonConfigPath
    ∉ map (fun file => path_Join (BumpOptions.Basedir options) (Name file))
        (syncTargets config (BumpOptions.ActiveProfiles options)) ->
  read_ok w' versioonConfigPath = true ->
  ReadCurrentOptions.Basedir readOptions = BumpOptions.Basedir options ->
  ReadCurrentVersion (Some readOptions) w' = (Ok newVersion, w').
Proof.
  intros p Hb Hc Hv Hback Hn Hr Hbase. subst p.
  rewrite (Bump_parsed _ _ _ Hc) in Hb. unfold_M. rewrite Hv in Hb.
  destruct (WriteAndCommit _ _ _ _ _ w) as [[[]|e|q] w1] eqn:Hwc; [|discriminate..].
  apply WriteAndCommit_Ok in Hwc as (yml & Hm & Hfs & _).
  destruct (Hback yml Hm) as (config' & Hu & Hver).
  pose proof (bumpSyncTargets_config_file options (Version config)
                (with_Version config newVersion) w1 Hn) as Hkeep.
  rewrite Hb in Hkeep. cbn [snd] in Hkeep. rewrite Hfs, lookup_insert_eq in Hkeep.
  rewrite <- Hbase in Hkeep, Hr.
  rewrite (ReadCurrentVersion_of_file _ _ _ _ Hkeep Hr Hu). by rewrite Hver.
Qed.

(** *** BumpOrchestrator: profiles *)

Lemma bind_assoc {A B C} (m : M A) (f : A -> M B) (g : B -> M C) w :
  ((m ≫= f) ≫= g) w = (m ≫= fun a => f a ≫= g) w.
Proof. unfold_M. by destruct (m w) as [[a|e|q] w1]. Qed.

Lemma profile_loop_inactive options oldVersion newVersion profiles w :
  for_range profiles (bumpProfile options oldVersion newVersion []) w = (Ok tt, w).
Proof.
  revert w. induction profiles as [|profile profiles IH]; intros w; [reflexivity|].
  cbn [for_range bumpProfile]. unfold_M. apply IH.
Qed.

(** X14: without active profiles the profiles of the config play no part,
    not even entries that are nil: the sync phase is the sync of the global
    targets. *)
Theorem bumpSyncTargets_no_active_profiles (options : BumpOptions.t)
    (oldVersion : string) (config : VrsConfig) (w : World) :
  BumpOptions.ActiveProfiles options = [] ->
  bumpSyncTargets options oldVersion config w
  = bumpSync options oldVersion (Version config) (Config_Sync config) w.
Proof.
  intros Ha. unfold bumpSyncTargets. rewrite Ha. unfold_M.
  destruct (bumpSync _ _ _ _ w) as [[[]|e|q] w1]; [|reflexivity..].
  apply profile_loop_inactive.
Qed.

(** the loop over profiles that are all present, as one loop over files *)
Lemma profile_loop_for_range options oldVersion newVersion activeProfiles profiles w :
  Forall is_Some profiles ->
  for_range profiles (bumpProfile options oldVersion newVersion activeProfiles) w
  = for_range
      (flat_map (fun profile : option Profile =>
         match profile with
         | Some p =>
             if bool_decide (Profile_Name p ∈ activeProfiles)
             then from_option Files [] (Profile_Sync p)
             else []
         | None => []
         end) profiles)
      (bumpSyncFile options oldVersion newVersion) w.
Proof.
  intros Hsome. revert w.
  induction Hsome as [|profile profiles [p ->] _ IH]; intros w; [reflexivity|].
  cbn [for_range flat_map]. rewrite for_range_app.
  apply bind_ext; [|intros _; apply IH].
  intros w1. rewrite bumpProfile_active.
  case_bool_decide; [by rewrite bumpSync_for_range | reflexivity].
Qed.

(** X15: a nil entry among the profiles makes the sync phase panic with a
    nil dereference as soon as the loop reaches it, when any profile is
    active: the targets of the global sync and of the profiles before the
    entry are processed first, the profiles after it never. *)
Theorem bumpSyncTargets_nil_profile (options : BumpOptions.t) (oldVersion version : string)
    (sync : option Sync) (before after : list (option Profile)) (w : World) :
  BumpOptions.ActiveProfiles options <> [] ->
  Forall is_Some before ->
  bumpSyncTargets options oldVersion
    {| Version := version; Config_Sync := sync; Profiles := before ++ None :: after |} w
  = (for_range
       (syncTargets {| Version := version; Config_Sync := sync; Profiles := before |}
          (BumpOptions.ActiveProfiles options))
       (bumpSyncFile options oldVersion version) ;;
     lift (Panic NilDereference)) w.
Proof.
  intros Ha Hsome. unfold bumpSyncTargets, syncTargets. cbn [Version Config_Sync Profiles].
  rewrite bumpSync_for_range.
  destruct (BumpOptions.ActiveProfiles options) as [|a actives] eqn:Hact; [done|].
  set (body := bumpSyncFile options oldVersion version).
  set (global := from_option Files [] sync).
  set (selected := flat_map _ before).
  set (stop := lift (Panic NilDereference) : M unit).
  assert (forall w,
    for_range (before ++ None :: after)
      (bumpProfile options oldVersion version (a :: actives)) w
    = (for_range selected body ;; stop) w) as Hloop.
  { intros w0. rewrite for_range_app.
    apply bind_ext; [intros w1; by apply profile_loop_for_range|].
    intros _ w1. reflexivity. }
  transitivity ((for_range global body ;;
                 (for_range selected body ;; stop)) w).
  - apply bind_ext; [reflexivity | intros _; apply Hloop].
  - rewrite <- (bind_assoc (for_range global body) (fun _ => for_range selected body)
                  (fun _ => stop) w).
    apply bind_ext; [|reflexivity]. intros w0. symmetry. apply for_range_app.
Qed.

(** *** BumpOrchestrator: the trace of a bump that succeeded *)

Lemma bumpInFile_Ok_trace baseDir file oldVersion oldExpression newVersion w w' :
  bumpInFile baseDir true file oldVersion oldExpression newVersion w = (Ok tt, w') ->
  exists data, trace w' = trace w ++ map done (file_actions baseDir true file data).
Proof.
  rewrite bumpInFile_actions. unfold_M.
  pose proof (os_ReadFile_world (path_Join baseDir file) w) as Hw.
  destruct (os_ReadFile _ w) as [[data|e|q] w0]; cbn [snd] in Hw; subst w0; [|discriminate..].
  destruct (bumpedContent _ _ _ data) as [c|e|q]; [|discriminate..].
  destruct (for_range_perform (file_actions baseDir true file c) w)
    as [-> | (e & pre & a & post & _ & ->)]; [|discriminate].
  intros [= <-]. by exists c.
Qed.

Lemma files_Ok_trace options oldVersion newVersion files w w' :
  BumpOptions.GitCommit options = true ->
  for_range files (bumpSyncFile options oldVersion newVersion) w = (Ok tt, w') ->
  exists datas,
    length datas = length files
    /\ trace w' = trace w
         ++ synced_events (BumpOptions.Basedir options) (zip (map Name files) datas).
Proof.
  intros Hc. revert w. induction files as [|file files IH]; intros w.
  - intros [= <-]. exists []. cbn. by rewrite app_nil_r.
  - cbn [for_range]. unfold_M.
    destruct (bumpSyncFile options oldVersion newVersion file w) as [[[]|e|q] w1] eqn:Hf;
      [|discriminate..].
    intros Hrest. destruct (IH _ Hrest) as (datas & Hlen & Htr).
    assert (exists data, trace w1 = trace w
              ++ map done (file_actions (BumpOptions.Basedir options) true (Name file) data))
      as [data Htr1].
    { unfold bumpSyncFile in Hf. rewrite Hc in Hf.
      case_bool_decide; by eapply bumpInFile_Ok_trace. }
    exists (data :: datas). split; [cbn; by rewrite Hlen|].
    rewrite Htr, Htr1. cbn [map zip zip_with synced_events flat_map fst snd].
    by rewrite <- app_assoc.
Qed.

(** X16: the trace of a commit-mode bump that returned without error, on a
    config whose profile entries are all present, is exactly: the write of
    the new config, [git add], [git commit -m "Version bump."], [git tag],
    the pushes in push mode, and then for every sync target, in the order
    of the global sync and the active profiles, its write, [git add] and
    [git commit -m "Bumped version."]: one commit per target. *)
Theorem Bump_Ok_trace (options : BumpOptions.t) (w w' : World) (config : VrsConfig) :
  let baseDir := BumpOptions.Basedir options in
  let targets := syncTargets config (BumpOptions.ActiveProfiles options) in
  Bump (Some options) w = (Ok tt, w') ->
  BumpOptions.GitCommit options = true ->
  (ParseVersioonConfig baseDir w).1 = Ok config ->
  Forall is_Some (Profiles config) ->
  exists newVersion yml datas,
    bumpedVersion (Version config) = Ok newVersion
    /\ yaml_Marshal (with_Version config newVersion) = Some yml
    /\ length datas = length targets
    /\ trace w'
       = trace w
         ++ map done (config_actions baseDir yml "Version bump." newVersion true
                        (BumpOptions.GitPush options))
         ++ synced_events baseDir (zip (map Name targets) datas).
Proof.
  intros baseDir targets Hb Hc Hp Hsome. subst baseDir targets.
  rewrite (Bump_parsed _ _ _ Hp) in Hb. unfold_M.
  destruct (bumpedVersion (Version config)) as [newVersion|e|q]; [|discriminate..].
  destruct (WriteAndCommit _ _ _ _ _ w) as [[[]|e|q] w1] eqn:Hwc; [|discriminate..].
  apply WriteAndCommit_Ok in Hwc as (yml & Hm & _ & Htr1).
  assert (for_range (syncTargets config (BumpOptions.ActiveProfiles options))
            (bumpSyncFile options (Version config) newVersion) w1 = (Ok tt, w')) as Hsync.
  { rewrite <- Hb. unfold bumpSyncTargets, syncTargets.
    rewrite for_range_app, bumpSync_for_range.
    apply bind_ext; [reflexivity|]. intros _ w2. symmetry.
    by apply profile_loop_for_range. }
  destruct (files_Ok_trace _ _ _ _ _ _ Hc Hsync) as (datas & Hlen & Htr).
  exists newVersion, yml, datas. repeat split; [done..|].
  rewrite Htr, Htr1, Hc. cbn [Version with_Version]. by rewrite <- app_assoc.
Qed.

(** *** The entry points without options *)

(** X17: called without options, the three entry points work in the
    current directory, [Init] and [Bump] with commit and push enabled and
    [Bump] with no active profile; when the current directory cannot be
    determined they return that error and do nothing. *)
Theorem nil_options_defaults (w : World) :
  match os_Getwd with
  | Some wd =>
      Init None w
      = Init (Some {| InitOptions.Basedir := wd; InitOptions.GitCommit := true;
                      InitOptions.GitPush := true |}) w
      /\ Bump None w
         = Bump (Some {| BumpOptions.Basedir := wd; BumpOptions.GitCommit := true;
                         BumpOptions.GitPush := true; BumpOptions.ActiveProfiles := [] |}) w
      /\ ReadCurrentVersion None w
         = ReadCurrentVersion
             (Some {| ReadCurrentOptions.Basedir := wd; ReadCurrentOptions.GitCommit := true;
                      ReadCurrentOptions.GitPush := true |}) w
  | None =>
      exists e, Init None w = (Err e, w) /\ Bump None w = (Err e, w)
                /\ ReadCurrentVersion None w = (Err e, w)
  end.
Proof.
  unfold Init, Bump, ReadCurrentVersion, NewDefaultInitOptions, NewDefaultBumpOptions,
    NewDefaultReadCurrentOptions, os_Getwd_result.
  destruct os_Getwd as [wd|]; [done|]. by eexists.
Qed.

(** *** InitOperation and the sync phase: what they leave alone *)

(** X18: [Init] writes no file but the config file: every other file is
    as it was, whether the commands succeed or not. *)
Theorem Init_same_outside (options : InitOptions.t) (w : World) :
  same_outside [path_Join (InitOptions.Basedir options) VrsConfigFileName]
    w (Init (Some options) w).2.
Proof.
  revert w. apply (WriteAndCommit_same_outside _ _ (InitOptions.Basedir options)).
  apply list_elem_of_here.
Qed.

Lemma only_synced_refl w : only_synced w w.
Proof. exists []. by rewrite app_nil_r. Qed.

Lemma only_synced_trans w1 w2 w3 : only_synced w1 w2 -> only_synced w2 w3 -> only_synced w1 w3.
Proof.
  intros (t1 & H1 & Hw1) (t2 & H2 & Hw2). exists (t1 ++ t2).
  rewrite H2, H1, <- app_assoc. split; [done|].
  rewrite forallb_app. by rewrite Hw1, Hw2.
Qed.

Lemma perform_only_synced a :
  is_sync_event (done a) = true -> keeps only_synced (perform a).
Proof.
  intros Ha w. destruct (perform_cases a w) as [-> | [e ->]]; cbn [snd trace].
  - exists [done a]. split; [done|]. cbn. by rewrite Ha.
  - exists [failed a]. split; [done|]. cbn. unfold is_sync_event in *. cbn in *. by rewrite Ha.
Qed.

Lemma bumpInFile_only_synced baseDir gitCommit file oldVersion oldExpression newVersion :
  keeps only_synced (bumpInFile baseDir gitCommit file oldVersion oldExpression newVersion).
Proof.
  eapply keeps_ext; [intros w; apply bumpInFile_actions|].
  apply keeps_bind; [apply only_synced_trans | apply os_ReadFile_keeps, only_synced_refl |].
  intros data. apply keeps_bind;
    [apply only_synced_trans | apply keeps_lift, only_synced_refl |].
  intros c. apply keeps_for_range; [apply only_synced_refl | apply only_synced_trans |].
  intros a Ha. apply perform_only_synced.
  unfold file_actions in Ha. apply elem_of_cons in Ha as [->|Ha]; [reflexivity|].
  destruct gitCommit; [|by apply elem_of_nil in Ha].
  repeat (apply elem_of_cons in Ha as [-> | Ha]; [reflexivity|]).
  by apply elem_of_nil in Ha.
Qed.

(** X19: the sync phase of a bump never tags and never pushes: all it
    attempts are writes, [git add] and [git commit -m "Bumped version."].
    The pushes of a bump come before it, so the commits of the sync targets
    are not pushed by the bump. *)
Theorem bumpSyncTargets_only_synced (options : BumpOptions.t) (oldVersion : string)
    (config : VrsConfig) (w : World) :
  only_synced w (bumpSyncTargets options oldVersion config w).2.
Proof.
  revert w. apply bumpSyncTargets_keeps; [apply only_synced_refl | apply only_synced_trans |].
  intros file _. unfold bumpSyncFile. case_bool_decide; apply bumpInFile_only_synced.
Qed.

(** *** BumpOrchestrator: no panic on a well-formed config *)

Lemma never_panics_ret {A} (a : A) : never_panics (mret a : M A).
Proof. intros w p. discriminate. Qed.

Lemma never_panics_bind {A B} (m : M A) (f : A -> M B) :
  never_panics m -> (forall a, never_panics (f a)) -> never_panics (m ≫= f).
Proof.
  intros Hm Hf w p. specialize (Hm w). unfold_M.
  destruct (m w) as [[a|e|q] w1]; cbn [fst] in *; [apply Hf | discriminate | by destruct (Hm q)].
Qed.

Lemma never_panics_for_range {A} (xs : list A) (body : A -> M unit) :
  (forall x, x ∈ xs -> never_panics (body x)) -> never_panics (for_range xs body).
Proof.
  induction xs as [|x xs IH]; intros Hbody; [apply never_panics_ret|].
  cbn [for_range]. apply never_panics_bind.
  - apply Hbody, list_elem_of_here.
  - intros _. apply IH. intros y Hy. by apply Hbody, list_elem_of_further.
Qed.

Lemma never_panics_ext {A} (m1 m2 : M A) :
  (forall w, m1 w = m2 w) -> never_panics m2 -> never_panics m1.
Proof. intros Heq H2 w. rewrite Heq. apply H2. Qed.

Lemma never_panics_perform a : never_panics (perform a).
Proof. intros w p. by destruct (perform_cases a w) as [-> | [e ->]]. Qed.

Lemma never_panics_WriteAndCommit config baseDir commit push commitMessage :
  never_panics (WriteAndCommit config baseDir commit push commitMessage).
Proof.
  eapply never_panics_ext; [intros w; apply WriteAndCommit_actions|].
  apply never_panics_bind.
  - intros w p. by destruct (yaml_Marshal config).
  - intros yml. apply never_panics_for_range. intros a _. apply never_panics_perform.
Qed.

Lemma never_panics_bumpSyncFile options oldVersion newVersion file :
  never_panics (bumpSyncFile options oldVersion newVersion file).
Proof.
  assert (forall baseDir gitCommit name old expr,
            never_panics (bumpInFile baseDir gitCommit name old expr newVersion)) as Hin.
  { intros baseDir gitCommit name old expr.
    eapply never_panics_ext; [intros w; apply bumpInFile_actions|].
    apply never_panics_bind.
    - intros w p. unfold os_ReadFile. destruct (fs w !! _); [|discriminate].
      by destruct (read_ok w _).
    - intros data. apply never_panics_bind.
      + intros w p. unfold bumpedContent, lift. cbn [fst].
        case_bool_decide; [discriminate|]. by destruct (regexp_Compile expr).
      + intros c. apply never_panics_for_range. intros a _. apply never_panics_perform. }
  unfold bumpSyncFile. case_bool_decide; apply Hin.
Qed.

Lemma never_panics_bumpSync options oldVersion newVersion sync :
  never_panics (bumpSync options oldVersion newVersion sync).
Proof.
  rewrite bumpSync_for_range. apply never_panics_for_range.
  intros file _. apply never_panics_bumpSyncFile.
Qed.

Lemma bumpedVersion_no_panic oldVersion :
  (3 <= length (strings.Split oldVersion "."))%nat ->
  forall p, bumpedVersion oldVersion <> Panic p.
Proof.
  intros Hl p. unfold bumpedVersion, at_index.
  destruct (strings.Split oldVersion ".") as [|part0 [|part1 [|part2 rest]]];
    cbn [length] in Hl; try lia.
  cbn [lookup list_lookup mbind Outcome_bind].
  destruct (Atoi_cases part1) as [[n ->] | ->]; discriminate.
Qed.

(** X20: [Bump] does not panic on a config whose version has at least three
    parts and whose profile entries are all present: whatever the files,
    the patterns and the commands do, it returns, with or without an
    error. *)
Theorem Bump_never_panics (options : BumpOptions.t) (w : World) (config : VrsConfig) :
  (ParseVersioonConfig (BumpOptions.Basedir options) w).1 = Ok config ->
  (3 <= length (strings.Split (Version config) "."))%nat ->
  Forall is_Some (Profiles config) ->
  (Bump (Some options) w).1 = Ok tt \/ exists e, (Bump (Some options) w).1 = Err e.
Proof.
  intros Hc Hl Hsome.
  assert (forall p, (Bump (Some options) w).1 <> Panic p) as Hnp.
  { rewrite (Bump_parsed _ _ _ Hc). revert w Hc. intros w _. revert w.
    apply never_panics_bind.
    - intros w p. unfold lift. cbn [fst]. by apply bumpedVersion_no_panic.
    - intros newVersion. apply never_panics_bind; [apply never_panics_WriteAndCommit|].
      intros _. unfold bumpSyncTargets.
      apply never_panics_bind; [apply never_panics_bumpSync|].
      intros _. apply never_panics_for_range. intros profile Hin.
      rewrite Forall_forall in Hsome. destruct (Hsome profile Hin) as [p ->].
      eapply never_panics_ext; [intros w; apply bumpProfile_active|].
      case_bool_decide; [apply never_panics_bumpSync | apply never_panics_ret]. }
  destruct (Bump (Some options) w).1 as [[]|e|q]; [by left | right; by exists e |].
  by destruct (Hnp q).
Qed.

End more_properties.

(** * The further properties on examples *)

Lemma Write_then_ParseVersioonConfig_witness :
  let codec := yaml [three_profiles] in
  let w' := (Write (codec := codec) (sys := os []) three_profiles "/p" (world [])).2 in
  ParseVersioonConfig (codec := codec) (sys := os []) "/p" w' = (Ok three_profiles, w').
Proof.
  intros codec w'.
  apply (Write_then_ParseVersioonConfig (codec := codec) (sys := os [])
           three_profiles "/p" (world []) w').
  - vm_compute. reflexivity.
  - intros yml [= <-]. vm_compute. reflexivity.
  - reflexivity.
Defined.

Lemma Bump_without_config_witness :
  let w := world [("/p/README.md"%string, "Release v0.1.0"%string)] in
  Bump (codec := yaml []) (matching := matcher) (sys := os []) (Some (options [])) w
  = (Err NoVersioonFileFound, w).
Proof.
  intros w.
  apply (Bump_without_config (codec := yaml []) (matching := matcher) (sys := os [])
           (options []) w).
  vm_compute. reflexivity.
Defined.

Lemma Bump_two_part_version_panics_witness :
  let w := world [("/p/vrs.yml"%string, print_config (config_of "1.2"))] in
  Bump (codec := yaml [config_of "1.2"]) (matching := matcher) (sys := os [])
    (Some (options [])) w
  = (Panic (IndexOutOfRange 2 2), w).
Proof.
  intros w.
  apply (Bump_two_part_version_panics (codec := yaml [config_of "1.2"])
           (matching := matcher) (sys := os []) (options []) w (config_of "1.2") "1" "2" 2).
  - vm_compute. reflexivity.
  - vm_compute. reflexivity.
  - vm_compute. reflexivity.
Defined.

Lemma bumpInFile_unreadable_witness :
  exists op,
    bumpInFile (matching := matcher) (sys := os []) "/p" true "missing.txt"
      "0.1.0" "" "0.2.0" project
    = (Err (PathError op "/p/missing.txt"), project).
Proof.
  apply (bumpInFile_unreadable (matching := matcher) (sys := os [])
           "/p" true "missing.txt" "0.1.0" "" "0.2.0" project).
  intros data. vm_compute. discriminate.
Defined.

Lemma Bump_without_commit_runs_nothing_witness :
  only_wrote project
    (Bump (codec := yaml [three_profiles]) (matching := matcher) (sys := os [])
       (Some (quiet ["dev"%string])) project).2.
Proof.
  exact (Bump_without_commit_runs_nothing (codec := yaml [three_profiles])
           (matching := matcher) (sys := os []) (quiet ["dev"%string]) project eq_refl).
Defined.

Lemma Bump_same_outside_witness :
  same_outside
    (bump_paths (sys := os []) "/p" three_profiles ["dev"%string])
    project
    (Bump (codec := yaml [three_profiles]) (matching := matcher) (sys := os [])
       (Some (options ["dev"%string])) project).2.
Proof.
  apply (Bump_same_outside (codec := yaml [three_profiles]) (matching := matcher)
           (sys := os []) (options ["dev"%string]) project three_profiles).
  vm_compute. reflexivity.
Defined.

Lemma Bump_keeps_new_config_witness :
  let sys := os [["commit"; "-m"; "Bumped version."]%string] in
  let after := Bump (codec := yaml [three_profiles]) (matching := matcher) (sys := sys)
                 (Some (options ["dev"%string])) project in
  fs after.2 !! "/p/vrs.yml"%string
  = Some (print_config (with_Version three_profiles "0.2.0")).
Proof.
  intros sys after.
  apply (Bump_keeps_new_config (codec := yaml [three_profiles]) (matching := matcher)
           (sys := sys) (options ["dev"%string]) project three_profiles "0.2.0"
           (print_config (with_Version three_profiles "0.2.0"))).
  - vm_compute. reflexivity.
  - vm_compute. reflexivity.
  - reflexivity.
  - reflexivity.
  - apply (bool_decide_unpack _). vm_compute. reflexivity.
Defined.

Lemma Bump_then_ReadCurrentVersion_witness :
  let codec := yaml [three_profiles; with_Version three_profiles "0.2.0"] in
  let readOptions := {| ReadCurrentOptions.Basedir := "/p";
                        ReadCurrentOptions.GitCommit := true;
                        ReadCurrentOptions.GitPush := true |} in
  let w' := (Bump (codec := codec) (matching := matcher) (sys := os [])
               (Some (options ["dev"%string])) project).2 in
  ReadCurrentVersion (codec := codec) (sys := os []) (Some readOptions) w'
  = (Ok "0.2.0"%string, w').
Proof.
  intros codec readOptions w'.
  apply (Bump_then_ReadCurrentVersion (codec := codec) (matching := matcher) (sys := os [])
           (options ["dev"%string]) readOptions project w' three_profiles "0.2.0").
  - vm_compute. reflexivity.
  - vm_compute. reflexivity.
  - vm_compute. reflexivity.
  - intros yml [= <-]. eexists. split; vm_compute; reflexivity.
  - apply (bool_decide_unpack _). vm_compute. reflexivity.
  - reflexivity.
  - reflexivity.
Defined.

Lemma bumpSyncTargets_no_active_profiles_witness :
  bumpSyncTargets (matching := matcher) (sys := os []) (options []) "0.1.0"
    (with_Version three_profiles "0.2.0") project
  = bumpSync (matching := matcher) (sys := os []) (options []) "0.1.0" "0.2.0"
      (Config_Sync three_profiles) project.
Proof.
  exact (bumpSyncTargets_no_active_profiles (matching := matcher) (sys := os [])
           (options []) "0.1.0" (with_Version three_profiles "0.2.0") project eq_refl).
Defined.

Lemma bumpSyncTargets_nil_profile_witness :
  let dev := Some {| Profile_Name := "dev";
                     Profile_Sync := Some {| Files := [ {| Name := "c.txt"; Pattern := "" |} ] |} |} in
  let sync := Some {| Files := [ {| Name := "README.md"; Pattern := "" |} ] |} in
  bumpSyncTargets (matching := matcher) (sys := os []) (options ["dev"%string]) "0.1.0"
    {| Version := "0.2.0"; Config_Sync := sync; Profiles := [dev] ++ None :: [dev] |} project
  = (for_range
       [ {| Name := "README.md"; Pattern := "" |}; {| Name := "c.txt"; Pattern := "" |} ]
       (bumpSyncFile (matching := matcher) (sys := os []) (options ["dev"%string])
          "0.1.0" "0.2.0") ;;
     lift (Panic NilDereference)) project.
Proof.
  intros dev sync.
  apply (bumpSyncTargets_nil_profile (matching := matcher) (sys := os [])
           (options ["dev"%string]) "0.1.0" "0.2.0" sync [dev] [dev] project).
  - discriminate.
  - repeat constructor. by eexists.
Defined.

Lemma Bump_Ok_trace_witness :
  let codec := yaml [three_profiles] in
  let o := options ["dev"%string] in
  let w' := (Bump (codec := codec) (matching := matcher) (sys := os []) (Some o) project).2 in
  exists newVersion yml datas,
    bumpedVersion (Version three_profiles) = Ok newVersion
    /\ yaml_Marshal (Yaml := codec) (with_Version three_profiles newVersion) = Some yml
    /\ length datas = length (syncTargets three_profiles ["dev"%string])
    /\ trace w'
       = trace project
         ++ map done (config_actions (sys := os []) "/p" yml "Version bump." newVersion
                        true false)
         ++ synced_events (sys := os []) "/p"
              (zip (map Name (syncTargets three_profiles ["dev"%string])) datas).
Proof.
  intros codec o w'.
  apply (Bump_Ok_trace (codec := codec) (matching := matcher) (sys := os [])
           o project w' three_profiles).
  - vm_compute. reflexivity.
  - reflexivity.
  - vm_compute. reflexivity.
  - repeat constructor; by eexists.
Defined.

Lemma Bump_never_panics_witness :
  let after := Bump (codec := yaml [three_profiles]) (matching := matcher)
                 (sys := os [["tag"; "v0.2.0"]%string]) (Some (options ["dev"%string]))
                 project in
  after.1 = Ok tt \/ exists e, after.1 = Err e.
Proof.
  apply (Bump_never_panics (codec := yaml [three_profiles]) (matching := matcher)
           (sys := os [["tag"; "v0.2.0"]%string]) (options ["dev"%string]) project
           three_profiles).
  - vm_compute. reflexivity.
  - vm_compute. lia.
  - repeat constructor; by eexists.
Defined.
